(** * Draft store: drafts, outbox and the send pipeline

    A shallow embedding of [packages/client/components/state/stores/Draft.ts]
    and the properties of its draft -> outbox -> send pipeline.

    Conventions of the embedding.
    - A JavaScript object used as a map ([Record<string, T>]) is a
      [gmap string T].  A missing key reads as [undefined], i.e. [None].
    - An optional field ([content?: string]) is an [option]; a key that is
      absent and a key holding [undefined] read the same through [.field]
      and are both [None].  The object literal handed to [setDraft] keeps
      the difference ([Field]), because a key-wise merge treats them
      differently.
    - JavaScript strings are [string]s, one character per UTF-16 code unit;
      indices into them are integers ([Z]).
    - The store's methods are state transformers over [Store].  Those that
      can throw or that talk to the outside world live in the monad [M];
      a call to an external collaborator (upload, message send, id
      generator) is answered by the [World] from the history of earlier
      calls, and recorded in the store's [events] trace, newest first.
    - An [async] method is run to completion: the [await] points of
      [sendDraft] are not interleaved with other calls. *)

From stdpp Require Import base option list strings gmap pretty.
From Stdlib Require Import ZArith QArith.

Local Close Scope Q_scope.
Local Open Scope string_scope.
Local Open Scope list_scope.
Local Open Scope nat_scope.

(** ** JavaScript values, as far as the store inspects them *)

(** Values read back from persisted storage: JSON-shaped data plus
    [undefined].  Of a number the store only ever tests the truthiness:
    [JNumber 0] stands for a number that is falsy, any other [JNumber z]
    for one that is truthy. *)
#[warnings="-register-all"]
Inductive JsVal : Type :=
  | JUndefined
  | JNull
  | JBool (b : bool)
  | JNumber (z : Z)
  | JString (s : string)
  | JArray (xs : list JsVal)
  | JObject (kvs : list (string * JsVal)).

Inductive Exn : Type :=
  | TypeError     (* property access on undefined or null *)
  | UploadError   (* throw "Upload Error" *)
  | SendError.    (* rejection of channel.sendMessage *)

Inductive Completion (A : Type) : Type :=
  | Return (a : A)
  | Throw (e : Exn).
Arguments Return {A} a.
Arguments Throw {A} e.

Module Js.

(** [typeof v === "object"]: true of [null], arrays and objects. *)
Definition typeof_object (v : JsVal) : bool :=
  match v with
  | JNull | JArray _ | JObject _ => true
  | _ => false
  end.

Definition typeof_string (v : JsVal) : bool :=
  match v with JString _ => true | _ => false end.

Definition typeof_boolean (v : JsVal) : bool :=
  match v with JBool _ => true | _ => false end.

Definition isArray (v : JsVal) : bool :=
  match v with JArray _ => true | _ => false end.

(** ToBoolean. *)
Definition truthy (v : JsVal) : bool :=
  match v with
  | JUndefined | JNull => false
  | JBool b => b
  | JNumber z => negb (Z.eqb z 0)
  | JString s => negb (String.eqb s "")
  | JArray _ | JObject _ => true
  end.

Definition string_truthy (s : string) : bool := negb (String.eqb s "").

(** Own enumerable string-keyed properties, as [Object.keys] lists them:
    the keys of an object, the indices of an array or of a string.  An
    object is given by its properties in the order [Object.keys] visits
    them. *)
Definition indexed {A} (xs : list A) : list (string * A) :=
  imap (λ i x, (pretty (N.of_nat i), x)) xs.

Definition own_entries (v : JsVal) : list (string * JsVal) :=
  match v with
  | JObject kvs => kvs
  | JArray xs => indexed xs
  | JString s =>
      indexed ((λ c, JString (String c "")) <$> String.list_ascii_of_string s)
  | _ => []
  end.

Fixpoint assoc {A} (k : string) (kvs : list (string * A)) : option A :=
  match kvs with
  | [] => None
  | (k', v) :: rest => if String.eqb k k' then Some v else assoc k rest
  end.

(** [v[k]] / [v.k]: throws on [undefined] and [null]; a missing property
    reads as [undefined]. *)
Definition prop (v : JsVal) (k : string) : Completion JsVal :=
  match v with
  | JUndefined | JNull => Throw TypeError
  | JObject kvs => Return (default JUndefined (assoc k kvs))
  | JArray xs =>
      if String.eqb k "length" then Return (JNumber (Z.of_nat (length xs)))
      else Return (default JUndefined (assoc k (own_entries v)))
  | JString s =>
      if String.eqb k "length" then Return (JNumber (Z.of_nat (String.length s)))
      else Return (default JUndefined (assoc k (own_entries v)))
  | JBool _ | JNumber _ => Return JUndefined
  end.

(** [v?.k]: optional chaining short-circuits on [undefined] and [null]. *)
Definition opt_prop (v : JsVal) (k : string) : JsVal :=
  match prop v k with
  | Return x => x
  | Throw _ => JUndefined
  end.

(** [Object.keys(v)] throws on [undefined] and [null]. *)
Definition keys (v : JsVal) : Completion (list string) :=
  match v with
  | JUndefined | JNull => Throw TypeError
  | _ => Return (fst <$> own_entries v)
  end.

(** [String.prototype.slice]: a negative index counts from the end, both
    indices are clamped to the string, and an empty range gives [""]. *)
Definition clamp_index (len i : Z) : Z :=
  if Z.ltb i 0 then Z.max (len + i)%Z 0 else Z.min i len.

Definition slice (s : string) (from to : Z) : string :=
  let len := Z.of_nat (String.length s) in
  let a := clamp_index len from in
  let b := clamp_index len to in
  String.substring (Z.to_nat a) (Z.to_nat (b - a)%Z) s.

Definition str_length (s : string) : Z := Z.of_nat (String.length s).

End Js.

(** ** Data model *)

(** [API.ReplyIntent]; [mention] is whatever [addReply] computed, which is
    [undefined] when the remembered preference is unset. *)
Record ReplyIntent : Type := {
  id : string;
  mention : option bool;
}.

(** [DraftData], over the type [R] of reply entries: [ReplyIntent] in the
    running store, raw [JsVal]s in what [clean] lets through. *)
Record DraftData_ (R : Type) : Type := {
  content : option string;
  replies : option (list R);
  files : option (list string);
}.
Arguments content {R} _.
Arguments replies {R} _.
Arguments files {R} _.
Abbreviation DraftData := (DraftData_ ReplyIntent).

(** The empty object [{}]. *)
Definition emptyDraft {R} : DraftData_ R :=
  {| content := None; replies := None; files := None |}.

Inductive Status : Type := sending | unsent | failed.

(** [UnsentMessage = { idempotencyKey, status } & DraftData]. *)
Record UnsentMessage_ (R : Type) : Type := {
  idempotencyKey : string;
  status : Status;
  payload : DraftData_ R;
}.
Arguments idempotencyKey {R} _.
Arguments status {R} _.
Arguments payload {R} _.
Abbreviation UnsentMessage := (UnsentMessage_ ReplyIntent).

Record TextSelection : Type := {
  channelId : string;
  start : Z;
  end_ : Z;
}.

(** [TypeDraft], the persisted part of the store. *)
Record TypeDraft_ (R : Type) : Type := {
  td_drafts : gmap string (DraftData_ R);
  td_outbox : gmap string (list (UnsentMessage_ R));
}.
Arguments td_drafts {R} _.
Arguments td_outbox {R} _.

(** A [File] handle; only its content type is inspected. *)
Record File : Type := {
  file_name : string;
  file_type : string;
}.

(** An entry of [fileCache]. [uploadProgress] is the value of the signal. *)
Record CacheEntry : Type := {
  file : File;
  dataUri : option string;
  dimensions : option (Z * Z);
  autumnId : option string;
  uploadProgress : Q;
}.

(** [API.DataMessageSend], the fields the store fills in. *)
Record DataMessageSend : Type := {
  msg_content : option string;
  msg_replies : option (list ReplyIntent);
  msg_attachments : option (list string);
}.

(** What the XMLHttpRequest of one upload reports: the ratios of its
    [progress] events, whether it ended with [readyState === 4] and
    [status === 200], and the [id] of its JSON response. *)
Record UploadResult : Type := {
  up_progress : list Q;
  up_success : bool;
  up_id : string;
}.

(** Calls that leave the store, newest first in [events]. *)
Inductive Event : Type :=
  | EvFocus                                   (* _setNodeReplacement(["_focus"]) *)
  | EvUlid (key : string)                     (* ulid() *)
  | EvUpload (fileId : string) (f : File) (r : UploadResult)
  | EvSendMessage (channel : string) (data : DataMessageSend)
                  (key : string) (ok : bool)  (* channel.sendMessage *)
  | EvRevokeObjectURL (uri : string).

(** The store object: its persisted state, and the private fields of the
    class. *)
Record Store : Type := {
  drafts : gmap string DraftData;
  outbox : gmap string (list UnsentMessage);
  fileCache : gmap string CacheEntry;
  textSelection : option TextSelection;
  setNodeReplacement : bool;   (* whether [_setNodeReplacement] is installed *)
  events : list Event;
}.

Definition with_drafts (d : gmap string DraftData) (s : Store) : Store :=
  {| drafts := d; outbox := outbox s; fileCache := fileCache s;
     textSelection := textSelection s;
     setNodeReplacement := setNodeReplacement s; events := events s |}.

Definition with_outbox (o : gmap string (list UnsentMessage)) (s : Store) : Store :=
  {| drafts := drafts s; outbox := o; fileCache := fileCache s;
     textSelection := textSelection s;
     setNodeReplacement := setNodeReplacement s; events := events s |}.

Definition with_fileCache (c : gmap string CacheEntry) (s : Store) : Store :=
  {| drafts := drafts s; outbox := outbox s; fileCache := c;
     textSelection := textSelection s;
     setNodeReplacement := setNodeReplacement s; events := events s |}.

Definition with_textSelection (t : option TextSelection) (s : Store) : Store :=
  {| drafts := drafts s; outbox := outbox s; fileCache := fileCache s;
     textSelection := t;
     setNodeReplacement := setNodeReplacement s; events := events s |}.

Definition emit (e : Event) (s : Store) : Store :=
  {| drafts := drafts s; outbox := outbox s; fileCache := fileCache s;
     textSelection := textSelection s;
     setNodeReplacement := setNodeReplacement s; events := e :: events s |}.

(** The constructor's state: [default()] and an empty file cache. *)
Definition initial : Store :=
  {| drafts := ∅; outbox := ∅; fileCache := ∅; textSelection := None;
     setNodeReplacement := false; events := [] |}.

(** ** The store monad *)

(** A method that may throw: the store it leaves behind is kept in both
    cases, as the side effects made before a [throw] are. *)
Definition M (A : Type) : Type := Store → Completion A * Store.

Definition ret {A} (a : A) : M A := λ s, (Return a, s).
Definition throw {A} (e : Exn) : M A := λ s, (Throw e, s).
Definition bind {A B} (m : M A) (k : A → M B) : M B :=
  λ s, match m s with
       | (Return a, s') => k a s'
       | (Throw e, s') => (Throw e, s')
       end.
Definition gets {A} (f : Store → A) : M A := λ s, (Return (f s), s).
Definition modify (f : Store → Store) : M unit := λ s, (Return tt, f s).

Definition try_catch {A} (m : M A) (handler : Exn → M A) : M A :=
  λ s, match m s with
       | (Return a, s') => (Return a, s')
       | (Throw e, s') => handler e s'
       end.

Notation "'let*' x ':=' m 'in' k" := (bind m (λ x, k))
  (at level 10, x name, m at level 100, k at level 200).

(** ** Collaborators outside the file *)

(** [CONFIGURATION] of [@revolt/common]: the two limits the store reads.
    Their values are set outside this file; the methods take them as a
    parameter. *)
Record Configuration : Type := {
  MAX_ATTACHMENTS : nat;
  MAX_REPLIES : nat;
}.

(** The outside world, answering from the history of calls so far. *)
Record World : Type := {
  (** [ulid()] *)
  w_ulid : list Event → string;
  (** the XMLHttpRequest POST of one file to [/attachments] *)
  w_upload : list Event → File → UploadResult;
  (** whether [channel.sendMessage(data, idempotencyKey)] resolves *)
  w_sendMessage : list Event → string → DataMessageSend → string → bool;
  (** [state.layout.getSectionState(LAYOUT_SECTIONS.MENTION_REPLY)] *)
  w_mentionReply : list Event → option bool;
}.

(** [Message] of revolt.js: the fields [addReply] reads. *)
Record Message : Type := {
  message_id : string;
  message_channelId : string;
  message_authorId : option string;
}.

(** ** Object literals handed to [setDraft] *)

(** A key of an object literal: left out, or written (possibly with
    [undefined], as [files: files?.splice(..)] does). *)
Inductive Field (A : Type) : Type :=
  | Omitted
  | Given (v : option A).
Arguments Omitted {A}.
Arguments Given {A} v.

Record DraftObject : Type := {
  o_content : Field string;
  o_replies : Field (list ReplyIntent);
  o_files : Field (list string);
}.

(** [{ ...draft }] *)
Definition spread_field {A} (v : option A) : Field A :=
  match v with
  | None => Omitted
  | Some x => Given (Some x)
  end.

Definition spread (d : DraftData) : DraftObject :=
  {| o_content := spread_field (content d);
     o_replies := spread_field (replies d);
     o_files := spread_field (files d) |}.

Definition merge_field {A} (prev : option A) (f : Field A) : option A :=
  match f with
  | Omitted => prev
  | Given v => v
  end.

Definition merge_draft (prev : DraftData) (o : DraftObject) : DraftData :=
  {| content := merge_field (content prev) (o_content o);
     replies := merge_field (replies prev) (o_replies o);
     files := merge_field (files prev) (o_files o) |}.

(** Modelled from the spec: [AbstractStore.set], inherited from a file that
    is not part of these sources, at the path [("drafts", channelId)].  The
    object is merged key-wise into the stored draft: a key left out keeps
    its stored value, a key that is written replaces it (an array is
    replaced whole, [undefined] removes the key).  With no stored draft the
    object becomes the draft. *)
Definition set_drafts (channelId : string) (o : DraftObject) (s : Store) : Store :=
  with_drafts
    (<[channelId := merge_draft (default emptyDraft (drafts s !! channelId)) o]>
       (drafts s)) s.

(** Modelled from the spec: [AbstractStore.set] at the path
    [("outbox", channelId)]: the per-channel list is replaced whole. *)
Definition set_outbox (channelId : string) (l : list UnsentMessage) (s : Store) : Store :=
  with_outbox (<[channelId := l]> (outbox s)) s.

(** ** The methods of [Draft] *)

Section Draft.

Variable CONFIGURATION : Configuration.
Variable world : World.

(** [getDraft]: [this.get().drafts[channelId] ?? {}] *)
Definition getDraft (channelId : string) (s : Store) : DraftData :=
  default emptyDraft (drafts s !! channelId).

(** [hasDraft]: [entry && entry.content!.length > 0].  With no entry the
    result is the [undefined] that [&&] passes on; with an entry, reading
    [length] of an absent [content] throws. *)
Definition hasDraft (channelId : string) : M JsVal :=
  let* entry := gets (λ s, drafts s !! channelId) in
  match entry with
  | None => ret JUndefined
  | Some entry =>
      match content entry with
      | None => throw TypeError
      | Some c => ret (JBool (Z.ltb 0 (Js.str_length c)))
      end
  end.

(** The last two lines of [setDraft], reached with an object. *)
Definition setDraft_data (channelId : string) (data : DraftObject) (s : Store) : Store :=
  set_drafts channelId data s.

(** [clearDraft] *)
Definition clearDraft (channelId : string) (s : Store) : Store :=
  let files := default [] (files (getDraft channelId s)) in
  let s := foldl (λ s file, with_fileCache (delete file (fileCache s)) s) s files in
  setDraft_data channelId
    {| o_content := Given (Some ""); o_replies := Given (Some []);
       o_files := Given (Some []) |} s.

(** The argument of [setDraft]: nothing, an object, or an updater. *)
Inductive DraftArg : Type :=
  | Undefined
  | Data (data : DraftObject)
  | Updater (f : DraftData → DraftObject).

(** [setDraft] *)
Definition setDraft (channelId : string) (data : DraftArg) (s : Store) : Store :=
  let data :=
    match data with
    | Updater f => Data (f (getDraft channelId s))
    | _ => data
    end in
  match data with
  | Undefined => clearDraft channelId s
  | Data data => setDraft_data channelId data s
  | Updater _ => s   (* not reached: an updater was applied above *)
  end.

(** [popDraft].  [files?.splice(MAX_ATTACHMENTS)] returns the entries from
    index [MAX_ATTACHMENTS] on, which become the files of the new draft;
    [files?.slice(0, MAX_ATTACHMENTS)] returns the entries before that
    index, whether or not [splice] was able to remove the others from the
    array it was called on.  No other object holds that array: every
    writer of a draft's files stores a fresh one. *)
Definition popDraft (channelId : string) (s : Store) : DraftData * Store :=
  let d := getDraft channelId s in
  let s' :=
    setDraft channelId
      (Data {| o_content := Given (Some "");
               o_replies := Given (Some []);
               o_files := Given (drop (MAX_ATTACHMENTS CONFIGURATION) <$> files d) |}) s in
  ({| content := content d;
      replies := replies d;
      files := take (MAX_ATTACHMENTS CONFIGURATION) <$> files d |}, s').

(** [getPendingMessages] *)
Definition getPendingMessages (channelId : string) (s : Store) : list UnsentMessage :=
  default [] (outbox s !! channelId).

(** [getFile] *)
Definition getFile (fileId : string) (s : Store) : option CacheEntry :=
  fileCache s !! fileId.

(** [deleteFile] *)
Definition deleteFile (fileId : string) (s : Store) : Store :=
  let s :=
    match fileCache s !! fileId with
    | Some {| dataUri := Some uri |} =>
        if Js.string_truthy uri then emit (EvRevokeObjectURL uri) s else s
    | _ => s
    end in
  with_fileCache (delete fileId (fileCache s)) s.

(** [removeFile] *)
Definition removeFile (channelId fileId : string) (s : Store) : Store :=
  let s := deleteFile fileId s in
  setDraft channelId
    (Updater (λ data,
       {| o_content := Omitted; o_replies := Omitted;
          o_files := Given (filter (λ entry, entry ≠ fileId) <$> files data) |})) s.

(** [cancelSend] *)
Definition cancelSend (channel : string) (key : string) (s : Store) : Store :=
  set_outbox channel
    (filter (λ entry, idempotencyKey entry ≠ key) (getPendingMessages channel s)) s.

(** [setSelection] *)
Definition setSelection (channelId : string) (start end_ : Z) (s : Store) : Store :=
  with_textSelection
    (Some {| channelId := channelId; start := start; end_ := end_ |}) s.

(** [insertText] *)
Definition insertText (text : string) (s : Store) : Store :=
  match textSelection s with
  | None => s
  | Some sel =>
      let content := default "" (content (getDraft (channelId sel) s)) in
      let startStr := Js.slice content 0 (start sel) in
      let endStr := Js.slice content (end_ sel) (Js.str_length content) in
      let s :=
        setDraft (channelId sel)
          (Updater (λ draft,
             {| o_content := Given (Some (startStr +:+ text +:+ endStr));
                o_replies := o_replies (spread draft);
                o_files := o_files (spread draft) |})) s in
      let pasteEndIdx := (Js.str_length startStr + Js.str_length text)%Z in
      with_textSelection
        (Some {| channelId := channelId sel; start := pasteEndIdx;
                 end_ := pasteEndIdx |}) s
  end.

(** [addReply] *)
Definition addReply (message : Message) (selfId : string) (s : Store) : Store :=
  let s := if setNodeReplacement s then emit EvFocus s else s in
  let current := replies (getDraft (message_channelId message) s) in
  if existsb (λ reply, String.eqb (id reply) (message_id message))
       (default [] current)
  then s
  else if Nat.leb (MAX_REPLIES CONFIGURATION) (length (default [] current))
  then s
  else
    let shouldMention :=
      if bool_decide (message_authorId message ≠ Some selfId)
      then w_mentionReply world (events s)
      else Some false in
    setDraft (message_channelId message)
      (Updater (λ data,
         {| o_content := Omitted;
            o_replies :=
              Given (Some (default [] (replies data)
                           ++ [{| id := message_id message;
                                  mention := shouldMention |}])%list);
            o_files := Omitted |})) s.

(** *** The send pipeline *)

(** [ulid()] *)
Definition ulid : M string :=
  λ s, let key := w_ulid world (events s) in
       (Return key, emit (EvUlid key) s).

(** [uploadProgress[1](p)]: the setter of the entry's progress signal. *)
Definition setProgress (fileId : string) (p : Q) (s : Store) : Store :=
  with_fileCache
    (alter (λ e, {| file := file e; dataUri := dataUri e;
                    dimensions := dimensions e; autumnId := autumnId e;
                    uploadProgress := p |}) fileId (fileCache s)) s.

(** The promise around the XMLHttpRequest: every [progress] event sets
    the progress signal, [loadend] sets it to [1] and resolves. *)
Definition xhr_upload (fileId : string) (f : File) : M (bool * string) :=
  λ s, let r := w_upload world (events s) f in
       let s := emit (EvUpload fileId f r) s in
       let s := foldl (λ s p, setProgress fileId p s) s (up_progress r) in
       let s := setProgress fileId 1%Q s in
       (Return (up_success r, up_id r), s).

(** [this.fileCache[fileId].autumnId = response.id] *)
Definition memoize (fileId id : string) : M unit :=
  λ s, match fileCache s !! fileId with
       | None => (Throw TypeError, s)
       | Some e =>
           (Return tt,
            with_fileCache
              (<[fileId := {| file := file e; dataUri := dataUri e;
                              dimensions := dimensions e; autumnId := Some id;
                              uploadProgress := uploadProgress e |}]>
                 (fileCache s)) s)
       end.

(** Whether [if (autumnId)] takes the branch. *)
Definition memoized (e : CacheEntry) : option string :=
  match autumnId e with
  | Some i => if Js.string_truthy i then Some i else None
  | None => None
  end.

(** The loop [for (const fileId of files)] of [sendDraft], pushing onto
    [attachments]. *)
Fixpoint uploadFiles (files : list string) (attachments : list string)
  : M (list string) :=
  match files with
  | [] => ret attachments
  | fileId :: rest =>
      let* entry := gets (getFile fileId) in
      match entry with
      | None => throw TypeError   (* destructuring [undefined] *)
      | Some entry =>
          match memoized entry with
          | Some i => uploadFiles rest (attachments ++ [i])%list
          | None =>
              let* r := xhr_upload fileId (file entry) in
              if negb (fst r) then throw UploadError
              else
                let* _ := memoize fileId (snd r) in
                uploadFiles rest (attachments ++ [snd r])%list
          end
      end
  end.

(** [channel.sendMessage(data, idempotencyKey)] *)
Definition channel_sendMessage (channel : string) (data : DataMessageSend)
    (key : string) : M unit :=
  λ s, let ok := w_sendMessage world (events s) channel data key in
       let s := emit (EvSendMessage channel data key ok) s in
       (if ok then Return tt else Throw SendError, s).

Definition mark_failed (key : string) (entry : UnsentMessage) : UnsentMessage :=
  if bool_decide (idempotencyKey entry = key)
  then {| idempotencyKey := idempotencyKey entry; status := failed;
          payload := payload entry |}
  else entry.

(** [!draft.content && !draft.files?.length] *)
Definition nothing_to_send (draft : DraftData) : bool :=
  negb (Js.string_truthy (default "" (content draft)))
  && negb (Nat.ltb 0 (length (default [] (files draft)))).

(** The [data] object, once the loop is over and an empty [attachments]
    has been deleted from it. *)
Definition message_data (draft : DraftData) (attachments : list string)
  : DataMessageSend :=
  {| msg_content := content draft;
     msg_replies := replies draft;
     msg_attachments :=
       if Nat.eqb (length attachments) 0 then None else Some attachments |}.

(** [sendDraft] *)
Definition sendDraft (channel : string) (existingDraft : option DraftData)
  : M unit :=
  let* draft :=
    match existingDraft with
    | Some d => ret d
    | None => λ s, let '(d, s) := popDraft channel s in (Return d, s)
    end in
  if nothing_to_send draft then ret tt
  else
    let* key := ulid in
    let* _ := modify (λ s,
      set_outbox channel
        (getPendingMessages channel s
         ++ [{| idempotencyKey := key; status := sending; payload := draft |}])%list
        s) in
    let* attachments :=
      if Nat.ltb 0 (length (default [] (files draft)))
      then uploadFiles (default [] (files draft)) []
      else ret [] in
    let data := message_data draft attachments in
    try_catch
      (let* _ := channel_sendMessage channel data key in
       let* _ := modify (λ s,
         foldl (λ s file, removeFile channel file s) s
           (default [] (files draft))) in
       modify (λ s,
         set_outbox channel
           (filter (λ entry, idempotencyKey entry ≠ key)
              (getPendingMessages channel s)) s))
      (λ _, modify (λ s,
         set_outbox channel
           (mark_failed key <$> getPendingMessages channel s) s)).

(** A promise that nobody awaits: the work is done, run to completion as
    everywhere, and however it ends the caller goes on with [undefined]. *)
Definition dropped {A} (m : M A) : M unit := λ s, (Return tt, snd (m s)).

(** [retrySend].  The promise of the [sendDraft] it starts is dropped, so
    only the [TypeError] thrown before the attempt reaches the caller.
    An entry that is not found hands [undefined] to [sendDraft]. *)
Definition retrySend (channel : string) (key : string) : M unit :=
  let* pending := gets (λ s, outbox s !! channel) in
  match pending with
  | None => throw TypeError   (* [.find] of [undefined] *)
  | Some pending =>
      let draft :=
        List.find (λ entry, bool_decide (idempotencyKey entry = key)) pending in
      let* _ := modify (cancelSend channel key) in
      dropped (sendDraft channel (payload <$> draft))
  end.

End Draft.

(** ** [clean]: validation of persisted state *)

Module Clean.

Import Js.

Definition cbind {A B} (m : Completion A) (k : A → Completion B) : Completion B :=
  match m with
  | Return a => k a
  | Throw e => Throw e
  end.

Notation "'do*' x ':=' m 'in' k" := (cbind m (λ x, k))
  (at level 10, x name, m at level 100, k at level 200).

(** A loop whose body may throw, threading what it builds. *)
Fixpoint cfold {A B} (body : B → A → Completion B) (acc : B) (xs : list A)
  : Completion B :=
  match xs with
  | [] => Return acc
  | x :: rest => do* acc := body acc x in cfold body acc rest
  end.

(** The predicate handed to [replies.find]:
    [typeof x !== "object" || typeof x.id !== "string"
     || typeof x.mention !== "boolean"]. *)
Definition malformed_reply (x : JsVal) : Completion bool :=
  if negb (typeof_object x) then Return true
  else
    do* i := prop x "id" in
    if negb (typeof_string i) then Return true
    else
      do* m := prop x "mention" in
      Return (negb (typeof_boolean m)).

(** [Array.prototype.find]: the first element the predicate holds of, or
    [undefined]. *)
Fixpoint find (p : JsVal → Completion bool) (xs : list JsVal) : Completion JsVal :=
  match xs with
  | [] => Return JUndefined
  | x :: rest => do* b := p x in if b then Return x else find p rest
  end.

(** [validateReplies], as the truthiness of
    [Array.isArray(replies) && replies.length && !replies.find(..)]. *)
Definition validateReplies (replies : JsVal) : Completion bool :=
  match replies with
  | JArray xs =>
      if Nat.eqb (length xs) 0 then Return false
      else do* found := find malformed_reply xs in Return (negb (truthy found))
  | _ => Return false
  end.

Definition array_items (v : JsVal) : list JsVal :=
  match v with
  | JArray xs => xs
  | _ => []
  end.

(** The body of the loop over [Object.keys(messageDrafts)]. *)
Definition clean_draft (messageDrafts : JsVal)
    (drafts : gmap string (DraftData_ JsVal)) (channelId : string)
  : Completion (gmap string (DraftData_ JsVal)) :=
  let entry := opt_prop messageDrafts channelId in
  let content :=
    match opt_prop entry "content" with
    | JString c => if string_truthy c then Some c else None
    | _ => None
    end in
  do* valid := validateReplies (opt_prop entry "replies") in
  let replies :=
    if valid then Some (array_items (opt_prop entry "replies")) else None in
  if bool_decide (is_Some content) || bool_decide (is_Some replies)
  then Return (<[channelId := {| content := content; replies := replies;
                                 files := None |}]> drafts)
  else Return drafts.

(** [["sending", "unsent", "failed"].includes(v)] *)
Definition is_status (v : JsVal) : bool :=
  match v with
  | JString s =>
      String.eqb s "sending" || String.eqb s "unsent" || String.eqb s "failed"
  | _ => false
  end.

(** The body of the loop [for (const message of entry)]. *)
Definition clean_message (messages : list (UnsentMessage_ JsVal)) (message : JsVal)
  : Completion (list (UnsentMessage_ JsVal)) :=
  if negb (typeof_object message) then Return messages
  else
    do* st := prop message "status" in
    if negb (is_status st) then Return messages
    else
      do* key := prop message "idempotencyKey" in
      match key with
      | JString key =>
          do* c := prop message "content" in
          match c with
          | JString c =>
              do* r := prop message "replies" in
              do* valid := validateReplies r in
              Return (messages ++
                [{| idempotencyKey := key;
                    status := unsent;
                    payload :=
                      {| content := Some c;
                         replies := if valid then Some (array_items r) else None;
                         files := None |} |}])%list
          | _ => Return messages
          end
      | _ => Return messages
      end.

(** The body of the loop over [Object.keys(pendingMessages)]. *)
Definition clean_channel (pendingMessages : JsVal)
    (outbox : gmap string (list (UnsentMessage_ JsVal))) (channelId : string)
  : Completion (gmap string (list (UnsentMessage_ JsVal))) :=
  do* entry := prop pendingMessages channelId in
  do* messages :=
    (if isArray entry then cfold clean_message [] (array_items entry)
     else Return []) in
  Return (<[channelId := messages]> outbox).

(** [clean] *)
Definition clean (input : JsVal) : Completion (TypeDraft_ JsVal) :=
  do* messageDrafts := prop input "drafts" in
  do* drafts :=
    (if typeof_object messageDrafts
     then do* channels := keys messageDrafts in
          cfold (clean_draft messageDrafts) ∅ channels
     else Return ∅) in
  do* pendingMessages := prop input "outbox" in
  do* outbox :=
    (if typeof_object pendingMessages
     then do* channels := keys pendingMessages in
          cfold (clean_channel pendingMessages) ∅ channels
     else Return ∅) in
  Return {| td_drafts := drafts; td_outbox := outbox |}.

(** *** What the statements about [clean] speak of *)

(** A well-formed reply: an object with a string [id] and a boolean
    [mention]. *)
Definition well_formed_reply (x : JsVal) : Prop :=
  ∃ kvs i b, x = JObject kvs
    ∧ assoc "id" kvs = Some (JString i)
    ∧ assoc "mention" kvs = Some (JBool b).

Definition well_formed_replies (r : JsVal) : Prop :=
  ∃ xs, r = JArray xs ∧ xs ≠ [] ∧ Forall well_formed_reply xs.

(** A raw message of the persisted outbox and the entry [clean] makes
    of it. *)
Definition cleaned (raw : JsVal) (msg : UnsentMessage_ JsVal) : Prop :=
  typeof_object raw = true
  ∧ (∃ st, prop raw "status" = Return st ∧ is_status st = true)
  ∧ prop raw "idempotencyKey" = Return (JString (idempotencyKey msg))
  ∧ (∃ c, prop raw "content" = Return (JString c) ∧ content (payload msg) = Some c)
  ∧ (∃ r valid,
       prop raw "replies" = Return r
       ∧ validateReplies r = Return valid
       ∧ replies (payload msg) = (if valid then Some (array_items r) else None))
  ∧ status msg = unsent
  ∧ files (payload msg) = None.

(** A raw message that passes the checks of [clean]: an object with one
    of the three statuses, a string key and a string content. *)
Definition passes (raw : JsVal) : Prop :=
  typeof_object raw = true
  ∧ (∃ st, prop raw "status" = Return st ∧ is_status st = true)
  ∧ (∃ key, prop raw "idempotencyKey" = Return (JString key))
  ∧ (∃ c, prop raw "content" = Return (JString c)).

(** The list [clean] files under a channel: what the loop over the
    array of the persisted outbox builds, or nothing when the persisted
    value is not an array. *)
Definition channel_cleaned (pendingMessages : JsVal) (channelId : string)
    (messages : list (UnsentMessage_ JsVal)) : Prop :=
  ∃ entry, prop pendingMessages channelId = Return entry
    ∧ if isArray entry
      then cfold clean_message [] (array_items entry) = Return messages
      else messages = [].

(** The draft [clean] keeps for a channel of the persisted drafts: the
    content when it is a non-empty string, the replies when
    [validateReplies] accepts them, no files. *)
Definition draft_cleaned (messageDrafts : JsVal) (channelId : string)
    (d : DraftData_ JsVal) : Prop :=
  let entry := opt_prop messageDrafts channelId in
  files d = None
  ∧ (is_Some (content d) ∨ is_Some (replies d))
  ∧ (∀ c, content d = Some c ↔
          (opt_prop entry "content" = JString c ∧ c ≠ ""))
  ∧ (∀ rs, replies d = Some rs ↔
           (opt_prop entry "replies" = JArray rs
            ∧ validateReplies (JArray rs) = Return true)).

End Clean.

(** ** The remaining methods of [Draft] *)

(** [ALLOWED_IMAGE_TYPES] *)
Definition ALLOWED_IMAGE_TYPES : list string :=
  ["image/jpeg"; "image/png"; "image/gif"; "image/webp"].

(** What the browser answers during one [addFile]: the id drawn by
    [insecureUniqueId()], the reference [URL.createObjectURL] hands out,
    and the size the [Image] decodes to, [None] when it fires [onerror].
    These calls are not part of the store's trace. *)
Record Browser : Type := {
  insecureUniqueId : string;
  createObjectURL : File → string;
  decodeImage : string → option (Z * Z);
}.

Section DraftRest.

Variable browser : Browser.

(** [removeReply] *)
Definition removeReply (channelId messageId : string) (s : Store) : Store :=
  setDraft channelId
    (Updater (λ data,
       {| o_content := Omitted;
          o_replies :=
            Given (filter (λ reply, id reply ≠ messageId) <$> replies data);
          o_files := Omitted |})) s.

(** The callback of [toggleReplyMention]; [!reply.mention] is [true] for a
    mention that is [undefined]. *)
Definition toggled (messageId : string) (reply : ReplyIntent) : ReplyIntent :=
  if String.eqb (id reply) messageId
  then {| id := id reply; mention := Some (negb (default false (mention reply))) |}
  else reply.

(** The values [toggleReplyMention] hands to
    [state.layout.setSectionState(LAYOUT_SECTIONS.MENTION_REPLY, _)], in the
    order of the calls. *)
Definition mention_writes (messageId : string) (rs : list ReplyIntent) : list bool :=
  omap (λ reply,
          if String.eqb (id reply) messageId
          then Some (negb (default false (mention reply)))
          else None) rs.

(** [toggleReplyMention]: the writes to the layout store, and the store. *)
Definition toggleReplyMention (channelId messageId : string) (s : Store)
  : list bool * Store :=
  (mention_writes messageId (default [] (replies (getDraft channelId s))),
   setDraft channelId
     (Updater (λ data,
        {| o_content := Omitted;
           o_replies :=
             Given ((λ rs : list ReplyIntent, toggled messageId <$> rs)
                    <$> replies data);
           o_files := Omitted |})) s).

(** [hasAdditionalElements] *)
Definition hasAdditionalElements (channelId : string) (s : Store) : bool :=
  let draft := getDraft channelId s in
  Nat.ltb 0 (length (default [] (replies draft)))
  || Nat.ltb 0 (length (default [] (files draft))).

(** [popFromDraft]; [xs.slice(0, xs.length - 1)] is [xs] without its last
    entry. *)
Definition popFromDraft (channelId : string) (s : Store) : bool * Store :=
  let draft := getDraft channelId s in
  match replies draft with
  | Some (r :: rs) =>
      (true,
       setDraft channelId
         (Data {| o_content := Omitted;
                  o_replies := Given (Some (take (length (r :: rs) - 1) (r :: rs)));
                  o_files := Omitted |}) s)
  | _ =>
      match files draft with
      | Some (f :: fs) =>
          (true,
           setDraft channelId
             (Data {| o_content := Omitted;
                      o_replies := Omitted;
                      o_files := Given (Some (take (length (f :: fs) - 1) (f :: fs))) |}) s)
      | _ => (false, s)
      end
  end.

(** [addFile], run to completion: the cache entry, the preview and its
    size for an image type, then the id appended to the draft's files. *)
Definition addFile (channelId : string) (f : File) (s : Store) : Store :=
  let fileId := insecureUniqueId browser in
  let uri :=
    if bool_decide (file_type f ∈ ALLOWED_IMAGE_TYPES)
    then Some (createObjectURL browser f)
    else None in
  let entry :=
    {| file := f; dataUri := uri; dimensions := None; autumnId := None;
       uploadProgress := 0%Q |} in
  let s := with_fileCache (<[fileId := entry]> (fileCache s)) s in
  let s :=
    match uri with
    | Some u =>
        if Js.string_truthy u
        then match decodeImage browser u with
             | Some size =>
                 with_fileCache
                   (<[fileId := {| file := f; dataUri := uri; dimensions := Some size;
                                   autumnId := None; uploadProgress := 0%Q |}]>
                      (fileCache s)) s
             | None => s   (* [onerror]: the rejection is swallowed *)
             end
        else s
    | None => s
    end in
  setDraft channelId
    (Updater (λ data,
       {| o_content := Omitted; o_replies := Omitted;
          o_files := Given (Some (default [] (files data) ++ [fileId])) |})) s.

End DraftRest.

(** ** Vocabulary of the statements *)

Section Vocabulary.

Variable CONFIGURATION : Configuration.
Variable world : World.

(** Whether [replies?.find(reply => reply.id === message.id)] finds a
    reply, and how many replies to the message a list holds. *)
Definition has_reply (message : Message) (rs : list ReplyIntent) : bool :=
  existsb (λ reply, String.eqb (id reply) (message_id message)) rs.

Definition reply_count (message : Message) (rs : list ReplyIntent) : nat :=
  length (filter (λ reply, id reply = message_id message) rs).

(** Calls in the trace: an upload that ended with success, one that did
    not, a message send that was rejected, a released preview. *)
Definition successful_upload (e : Event) : Prop :=
  ∃ fileId f r, e = EvUpload fileId f r ∧ up_success r = true.

Definition failed_upload (e : Event) : Prop :=
  ∃ fileId f r, e = EvUpload fileId f r ∧ up_success r = false.

Definition failed_send (e : Event) : Prop :=
  ∃ channel data key, e = EvSendMessage channel data key false.

Definition is_revoke (e : Event) : Prop := ∃ uri, e = EvRevokeObjectURL uri.

(** A file whose cache entry holds a server-side id that [if (autumnId)]
    accepts. *)
Definition is_memoized (s : Store) (fileId : string) : Prop :=
  ∃ e i, getFile fileId s = Some e ∧ memoized e = Some i.

(** The server-side ids the cache holds for a list of files, in order. *)
Definition memoized_ids (s : Store) (files : list string) : list string :=
  omap (λ fileId, getFile fileId s ≫= memoized) files.

(** How an entry of the cache may change while a draft is sent: it keeps
    its file, and a server-side id it holds. *)
Definition entry_step (e e' : CacheEntry) : Prop :=
  file e' = file e ∧ ∀ i, memoized e = Some i → memoized e' = Some i.

Definition cache_step (c c' : gmap string CacheEntry) : Prop :=
  ∀ g, match c !! g with
       | None => c' !! g = None
       | Some e => ∃ e', c' !! g = Some e' ∧ entry_step e e'
       end.

Definition with_progress (p : Q) (e : CacheEntry) : CacheEntry :=
  {| file := file e; dataUri := dataUri e; dimensions := dimensions e;
     autumnId := autumnId e; uploadProgress := p |}.

(** The payload of a send, and the store it starts from. *)
Definition payload_of (channel : string) (existingDraft : option DraftData)
    (s : Store) : DraftData :=
  match existingDraft with
  | Some d => d
  | None => fst (popDraft CONFIGURATION channel s)
  end.

Definition after_pop (channel : string) (existingDraft : option DraftData)
    (s : Store) : Store :=
  match existingDraft with
  | Some _ => s
  | None => snd (popDraft CONFIGURATION channel s)
  end.

(** The outbox entry a send attempt queues, and the store once it is
    queued. *)
Definition queued_entry (draft : DraftData) (key : string) : UnsentMessage :=
  {| idempotencyKey := key; status := sending; payload := draft |}.

Definition queued (channel : string) (draft : DraftData) (s : Store) : Store :=
  let key := w_ulid world (events s) in
  set_outbox channel (getPendingMessages channel s ++ [queued_entry draft key])
    (emit (EvUlid key) s).

End Vocabulary.

(** A message send that was accepted. *)
Definition successful_send (e : Event) : Prop :=
  ∃ channel data key, e = EvSendMessage channel data key true.

(** Any call of [channel.sendMessage]. *)
Definition is_send_call (e : Event) : Prop :=
  ∃ channel data key ok, e = EvSendMessage channel data key ok.

(** The ids of the messages a list of replies answers. *)
Definition reply_ids (rs : list ReplyIntent) : list string := id <$> rs.

(** The store after [n] pops of a channel's draft. *)
Definition popped_times (CONFIGURATION : Configuration) (n : nat)
    (channelId : string) (s : Store) : Store :=
  Nat.iter n (λ s, snd (popDraft CONFIGURATION channelId s)) s.

(** What a draft holds besides its text. *)
Definition additional_elements (channelId : string) (s : Store) : nat :=
  length (default [] (replies (getDraft channelId s)))
  + length (default [] (files (getDraft channelId s))).


(** ** Fixtures for the worked examples *)

Module Fixtures.

(** The limits the client ships with. *)
Definition config : Configuration :=
  {| MAX_ATTACHMENTS := 5; MAX_REPLIES := 5 |}.

(** A world whose uploads succeed and whose message sends fail; keys are
    numbered by the length of the history. *)
Definition offline : World :=
  {| w_ulid := λ h, "key" +:+ pretty (N.of_nat (length h));
     w_upload := λ h f,
       {| up_progress := [1 # 2]%Q; up_success := true;
          up_id := "srv-" +:+ file_name f |};
     w_sendMessage := λ _ _ _ _, false;
     w_mentionReply := λ _, Some true |}.

(** The same world with an attachment server that refuses every file. *)
Definition no_uploads : World :=
  {| w_ulid := w_ulid offline;
     w_upload := λ h f,
       {| up_progress := []; up_success := false; up_id := "" |};
     w_sendMessage := λ _ _ _ _, true;
     w_mentionReply := λ _, Some true |}.

Definition with_draft (channelId : string) (d : DraftData) (s : Store) : Store :=
  with_drafts (<[channelId := d]> (drafts s)) s.

Definition reply (i : string) : ReplyIntent := {| id := i; mention := Some true |}.

Definition message (i : string) : Message :=
  {| message_id := i; message_channelId := "c"; message_authorId := Some "bob" |}.

Definition photo : File := {| file_name := "a.png"; file_type := "image/png" |}.

Definition cached (f : File) (uploaded : option string) : CacheEntry :=
  {| file := f; dataUri := None; dimensions := None; autumnId := uploaded;
     uploadProgress := 0%Q |}.

Definition with_file (fileId : string) (e : CacheEntry) (s : Store) : Store :=
  with_fileCache (<[fileId := e]> (fileCache s)) s.

(** *** Stores and data of the examples *)

(** A draft that holds one reply and nothing else: the store after a first
    [addReply]. *)
Definition replies_only : Store :=
  addReply config offline (message "m1") "alice" initial.

(** A draft with text and one attachment that was not uploaded yet. *)
Definition hi_with_photo : DraftData :=
  {| content := Some "hi"; replies := None; files := Some ["f1"] |}.

Definition composing : Store :=
  with_file "f1" (cached photo None) (with_draft "c" hi_with_photo initial).

(** A draft that is full of replies. *)
Definition full_of_replies : Store :=
  foldl (λ s i, addReply config offline (message i) "alice" s) initial
    ["m1"; "m2"; "m3"; "m4"; "m5"].

(** Text typed and selected, and the same store once the draft was popped
    for sending. *)
Definition typing_hello : Store :=
  setSelection "c" 3 5
    (setDraft "c"
       (Data {| o_content := Given (Some "hello"); o_replies := Omitted;
                o_files := Omitted |}) initial).

Definition selection_hello : TextSelection :=
  {| channelId := "c"; start := 3; end_ := 5 |}.

Definition after_sending_hello : Store := snd (popDraft config "c" typing_hello).

Definition refused : UploadResult :=
  {| up_progress := []; up_success := false; up_id := "" |}.

Definition accepted : UploadResult :=
  {| up_progress := [1 # 2]%Q; up_success := true; up_id := "srv-a.png" |}.

Definition hi_data : DataMessageSend :=
  {| msg_content := Some "hi"; msg_replies := None;
     msg_attachments := Some ["srv-a.png"] |}.

(** A persisted outbox: one message that had failed, with an attachment
    and a reply. *)
Definition persisted : JsVal :=
  JObject
    [("drafts", JObject []);
     ("outbox",
      JObject
        [("c",
          JArray
            [JObject
               [("idempotencyKey", JString "k1");
                ("status", JString "failed");
                ("content", JString "hello");
                ("files", JArray [JString "f1"]);
                ("replies",
                 JArray [JObject [("id", JString "m1"); ("mention", JBool true)]])]])])].

Definition restored : UnsentMessage_ JsVal :=
  {| idempotencyKey := "k1"; status := unsent;
     payload :=
       {| content := Some "hello";
          replies := Some [JObject [("id", JString "m1"); ("mention", JBool true)]];
          files := None |} |}.

Definition restored_state : TypeDraft_ JsVal :=
  {| td_drafts := ∅; td_outbox := {["c" := [restored]]} |}.

(** *** Stores and data of the further examples *)

(** A world whose uploads and message sends succeed. *)
Definition online : World :=
  {| w_ulid := w_ulid offline;
     w_upload := w_upload offline;
     w_sendMessage := λ _ _ _ _, true;
     w_mentionReply := w_mentionReply offline |}.

(** A browser that draws the id [f2] and decodes every image. *)
Definition picker : Browser :=
  {| insecureUniqueId := "f2";
     createObjectURL := λ f, "blob:" +:+ file_name f;
     decodeImage := λ _, Some (640, 480)%Z |}.

Definition previewed (f : File) : CacheEntry :=
  {| file := f; dataUri := Some ("blob:" +:+ file_name f);
     dimensions := Some (640, 480)%Z; autumnId := None; uploadProgress := 0%Q |}.

(** The draft of [composing], its photo cached with a preview. *)
Definition previewing : Store :=
  with_file "f1" (previewed photo) (with_draft "c" hi_with_photo initial).

(** The same, and a second channel with a draft and a file of its own. *)
Definition yo_with_photo : DraftData :=
  {| content := Some "yo"; replies := None; files := Some ["f3"] |}.

Definition two_channels : Store :=
  with_file "f3" (cached photo None) (with_draft "d" yo_with_photo previewing).

(** A draft that names a file the cache does not hold. *)
Definition dangling : Store := with_draft "c" hi_with_photo initial.

(** The store after an attempt that stopped at a refused upload: its
    entry is still [sending]. *)
Definition stuck : Store := snd (sendDraft config no_uploads "c" None composing).

(** Persisted state whose message holds replies that are no replies. *)
Definition junk_replies : list JsVal :=
  [JNumber 0; JString "junk"; JObject [("id", JNumber 7)]].

Definition tampered_message : JsVal :=
  JObject
    [("idempotencyKey", JString "k1");
     ("status", JString "failed");
     ("content", JString "hello");
     ("replies", JArray junk_replies)].

Definition tampered : JsVal :=
  JObject
    [("drafts", JObject []);
     ("outbox", JObject [("c", JArray [tampered_message])])].

Definition restored_junk : UnsentMessage_ JsVal :=
  {| idempotencyKey := "k1"; status := unsent;
     payload := {| content := Some "hello"; replies := Some junk_replies;
                   files := None |} |}.

Definition restored_tampered : TypeDraft_ JsVal :=
  {| td_drafts := ∅; td_outbox := {["c" := [restored_junk]]} |}.

Definition hello_data : DataMessageSend :=
  {| msg_content := Some "hello"; msg_replies := None; msg_attachments := None |}.

(** Persisted state with two drafts, one of them empty, and an outbox
    whose channel holds no array. *)
Definition saved : JsVal :=
  JObject
    [("drafts",
      JObject
        [("c", JObject [("content", JString "hello");
                        ("files", JArray [JString "f1"])]);
         ("d", JObject [("content", JString "")])]);
     ("outbox", JObject [("c", JString "oops")])].

Definition kept : DraftData_ JsVal :=
  {| content := Some "hello"; replies := None; files := None |}.

Definition reloaded : TypeDraft_ JsVal :=
  {| td_drafts := {["c" := kept]}; td_outbox := {["c" := []]} |}.

End Fixtures.

(** ** Drafts *)

Section DraftFacts.

Variable CONFIGURATION : Configuration.
Variable world : World.

Lemma getDraft_set_drafts channelId o s :
  getDraft channelId (set_drafts channelId o s)
  = merge_draft (getDraft channelId s) o.
Proof. unfold getDraft, set_drafts; simpl. by rewrite lookup_insert_eq. Qed.

Lemma getDraft_set_drafts_ne channelId other o s :
  channelId ≠ other →
  getDraft other (set_drafts channelId o s) = getDraft other s.
Proof. intros Hne. unfold getDraft, set_drafts; simpl. by rewrite lookup_insert_ne. Qed.

Lemma getDraft_lookup channelId s d :
  drafts s !! channelId = Some d → getDraft channelId s = d.
Proof. intros H. unfold getDraft. by rewrite H. Qed.

Lemma setDraft_Data channelId o s :
  setDraft channelId (Data o) s = set_drafts channelId o s.
Proof. reflexivity. Qed.

Lemma setDraft_Updater channelId f s :
  setDraft channelId (Updater f) s
  = set_drafts channelId (f (getDraft channelId s)) s.
Proof. reflexivity. Qed.

Lemma release_drafts (l : list string) s :
  drafts (foldl (λ s file, with_fileCache (delete file (fileCache s)) s) s l)
  = drafts s.
Proof. revert s. induction l as [|f l IH]; intros s; simpl; [done|]. by rewrite IH. Qed.

Lemma release_lookup (l : list string) s f :
  fileCache (foldl (λ s file, with_fileCache (delete file (fileCache s)) s) s l) !! f
  = if bool_decide (f ∈ l) then None else fileCache s !! f.
Proof.
  revert s. induction l as [|g l IH]; intros s.
  - case_bool_decide as Hin; [by apply elem_of_nil in Hin|done].
  - cbn [foldl]. rewrite IH. cbn [fileCache with_fileCache].
    rewrite (bool_decide_ext (f ∈ g :: l) (f = g ∨ f ∈ l)) by apply elem_of_cons.
    repeat case_bool_decide; try done; try tauto.
    + assert (f = g) as -> by tauto. apply lookup_delete_eq.
    + apply lookup_delete_ne. intros ->. tauto.
Qed.

(** The two halves of a pop. *)
Lemma popDraft_result channelId s :
  let d := getDraft channelId s in
  fst (popDraft CONFIGURATION channelId s)
  = {| content := content d; replies := replies d;
       files := take (MAX_ATTACHMENTS CONFIGURATION) <$> files d |}
  ∧ getDraft channelId (snd (popDraft CONFIGURATION channelId s))
    = {| content := Some ""; replies := Some [];
         files := drop (MAX_ATTACHMENTS CONFIGURATION) <$> files d |}.
Proof.
  unfold popDraft; cbn [fst snd]. by rewrite setDraft_Data, getDraft_set_drafts.
Qed.

(** C5. [popDraft] returns the draft's content, its replies and the
    first [MAX_ATTACHMENTS] entries of its files, and leaves a draft
    with empty content, no replies and the files from index
    [MAX_ATTACHMENTS] on.  A draft without a [files] list has none in
    either. *)
Theorem popDraft_splits channelId s :
  let d := getDraft channelId s in
  let popped := fst (popDraft CONFIGURATION channelId s) in
  let left := getDraft channelId (snd (popDraft CONFIGURATION channelId s)) in
  content popped = content d
  ∧ replies popped = replies d
  ∧ files popped = take (MAX_ATTACHMENTS CONFIGURATION) <$> files d
  ∧ left = {| content := Some ""; replies := Some [];
              files := drop (MAX_ATTACHMENTS CONFIGURATION) <$> files d |}
  ∧ default [] (files popped) ++ default [] (files left) = default [] (files d).
Proof.
  destruct (popDraft_result channelId s) as [Hp Hl]. cbn zeta in *.
  rewrite Hp, Hl. repeat split. cbn [files].
  destruct (files (getDraft channelId s)) as [l|]; simpl; [|done].
  apply take_drop.
Qed.

(** *** [addReply] *)

Lemma has_reply_count message rs :
  has_reply message rs = bool_decide (0 < reply_count message rs).
Proof.
  unfold has_reply, reply_count. induction rs as [|r rs IH]; [done|].
  cbn [existsb]. rewrite filter_cons. destruct (String.eqb_spec (id r) (message_id message)).
  - rewrite decide_True by done. cbn [length orb].
    symmetry. apply bool_decide_eq_true_2. lia.
  - rewrite decide_False by done. by rewrite IH.
Qed.

Lemma reply_count_app message rs rs' :
  reply_count message (rs ++ rs')
  = reply_count message rs + reply_count message rs'.
Proof. unfold reply_count. by rewrite filter_app, length_app. Qed.

(** The draft map [addReply] leaves behind. *)
Lemma addReply_drafts message selfId s :
  let channelId := message_channelId message in
  let rs := default [] (replies (getDraft channelId s)) in
  ∃ m,
    drafts (addReply CONFIGURATION world message selfId s)
    = if has_reply message rs || Nat.leb (MAX_REPLIES CONFIGURATION) (length rs)
      then drafts s
      else <[channelId :=
               {| content := content (getDraft channelId s);
                  replies := Some (rs ++ [{| id := message_id message; mention := m |}]);
                  files := files (getDraft channelId s) |}]> (drafts s).
Proof.
  intros channelId rs. unfold addReply.
  set (s0 := if setNodeReplacement s then emit EvFocus s else s).
  assert (drafts s0 = drafts s) as Hd by (subst s0; by destruct (setNodeReplacement s)).
  assert (getDraft (message_channelId message) s0 = getDraft channelId s) as Hg
    by (unfold getDraft; by rewrite Hd).
  rewrite Hg. fold rs. fold (has_reply message rs).
  eexists. destruct (has_reply message rs); [by rewrite Hd|].
  cbn [orb]. destruct (Nat.leb _ _); [by rewrite Hd|].
  rewrite setDraft_Updater, Hg. unfold set_drafts.
  cbn [drafts with_drafts]. rewrite Hd. reflexivity.
Qed.

(** C9. [addReply] is idempotent: a second call with the same message
    leaves the drafts as the first one left them.  On a draft that has
    room the two calls leave exactly one reply to the message, whether
    the draft held none or one before; in general they leave the
    replies to the message it held, and one if it held none.  On a
    draft that holds [MAX_REPLIES] replies or more a call leaves the
    replies as they were; so does a call for a message the draft
    already replies to. *)
Theorem addReply_twice message selfId s :
  let channelId := message_channelId message in
  let before := default [] (replies (getDraft channelId s)) in
  let s1 := addReply CONFIGURATION world message selfId s in
  let s2 := addReply CONFIGURATION world message selfId s1 in
  drafts s2 = drafts s1
  ∧ (length before < MAX_REPLIES CONFIGURATION →
     reply_count message before ≤ 1 →
     reply_count message (default [] (replies (getDraft channelId s2))) = 1)
  ∧ (length before < MAX_REPLIES CONFIGURATION →
     reply_count message (default [] (replies (getDraft channelId s2)))
     = Nat.max 1 (reply_count message before))
  ∧ ((MAX_REPLIES CONFIGURATION ≤ length before)%nat →
     replies (getDraft channelId s1) = replies (getDraft channelId s)
     ∧ replies (getDraft channelId s2) = replies (getDraft channelId s))
  ∧ (0 < reply_count message before →
     replies (getDraft channelId s2) = replies (getDraft channelId s)).
Proof.
  intros channelId before s1 s2.
  destruct (addReply_drafts message selfId s) as [m1 H1].
  destruct (addReply_drafts message selfId s1) as [m2 H2].
  fold channelId s1 before in H1. fold channelId s2 in H2.
  cbn zeta in H1, H2. fold channelId before in H1. fold channelId in H2.
  assert (drafts s2 = drafts s1) as H21.
  { rewrite H2.
    destruct (has_reply message before || Nat.leb (MAX_REPLIES CONFIGURATION) (length before)) eqn:E.
    - unfold getDraft. rewrite H1. fold (getDraft channelId s). fold before.
      by rewrite E.
    - rewrite (getDraft_lookup channelId s1 _ ltac:(rewrite H1; apply lookup_insert_eq)).
      cbn [replies]. change (default [] (Some ?l)) with l.
      rewrite has_reply_count, reply_count_app.
      rewrite bool_decide_eq_true_2; [done|].
      unfold reply_count at 2. rewrite filter_cons, decide_True by done.
      cbn [length]. lia. }
  split; [done|].
  assert (getDraft channelId s2 = getDraft channelId s1) as Hg
    by (unfold getDraft; by rewrite H21).
  rewrite Hg. rewrite has_reply_count in H1.
  assert (length before < MAX_REPLIES CONFIGURATION →
          reply_count message (default [] (replies (getDraft channelId s1)))
          = Nat.max 1 (reply_count message before)) as Hcount.
  { intros Hl.
    destruct (Nat.leb_spec (MAX_REPLIES CONFIGURATION) (length before)); [lia|].
    rewrite orb_false_r in H1.
    destruct (decide (0 < reply_count message before)) as [Hc|Hc].
    - rewrite bool_decide_eq_true_2 in H1 by done.
      unfold getDraft. rewrite H1. fold (getDraft channelId s). fold before. lia.
    - rewrite bool_decide_eq_false_2 in H1 by done.
      rewrite (getDraft_lookup channelId s1 _ ltac:(rewrite H1; apply lookup_insert_eq)).
      cbn [replies]. change (default [] (Some ?l)) with l.
      rewrite reply_count_app. unfold reply_count at 2.
      rewrite filter_cons, decide_True by done. rewrite filter_nil.
      cbn [length]. lia. }
  split; [intros Hl Hc; rewrite Hcount by done; lia|].
  split; [exact Hcount|]. split.
  - intros Hl.
    destruct (Nat.leb_spec (MAX_REPLIES CONFIGURATION) (length before)); [|lia].
    rewrite orb_true_r in H1. unfold getDraft. by rewrite H1.
  - intros Hc. rewrite bool_decide_eq_true_2 in H1 by done.
    unfold getDraft. by rewrite H1.
Qed.

(** C6, on the code: once [addReply] has created a draft that holds
    only replies, [hasDraft] on that channel does not answer [false]: it
    throws, reading [length] of the absent content. *)
Theorem hasDraft_throws_on_replies_only message selfId :
  0 < MAX_REPLIES CONFIGURATION →
  let s := addReply CONFIGURATION world message selfId initial in
  content (getDraft (message_channelId message) s) = None
  ∧ fst (hasDraft (message_channelId message) s) = Throw TypeError.
Proof.
  intros Hmax s.
  destruct (addReply_drafts message selfId initial) as [m H]. fold s in H.
  cbn zeta in H. unfold getDraft in H. cbn [drafts initial] in H.
  rewrite lookup_empty in H. cbn [default emptyDraft replies has_reply existsb
    length orb content files] in H.
  destruct (Nat.leb_spec (MAX_REPLIES CONFIGURATION) 0) as [Hle|_]; [lia|].
  unfold getDraft, hasDraft, bind, gets. by rewrite H, lookup_insert_eq.
Qed.

(** What [hasDraft] answers where it does answer: a boolean that tells
    whether the stored content is non-empty, whatever the replies and
    files; [undefined] when the channel has no draft. *)
Lemma hasDraft_content channelId s d c :
  drafts s !! channelId = Some d → content d = Some c →
  hasDraft channelId s = (Return (JBool (bool_decide (0 < Js.str_length c)%Z)), s).
Proof.
  intros Hd Hc. unfold hasDraft, bind, gets. rewrite Hd, Hc. unfold ret.
  do 3 f_equal. destruct (Z.ltb_spec 0 (Js.str_length c)).
  - by rewrite bool_decide_eq_true_2.
  - rewrite bool_decide_eq_false_2; [done|lia].
Qed.

Lemma hasDraft_no_draft channelId s :
  drafts s !! channelId = None →
  hasDraft channelId s = (Return JUndefined, s).
Proof. intros Hd. unfold hasDraft, bind, gets. by rewrite Hd. Qed.

Lemma hasDraft_no_content channelId s d :
  drafts s !! channelId = Some d → content d = None →
  hasDraft channelId s = (Throw TypeError, s).
Proof. intros Hd Hc. unfold hasDraft, bind, gets. by rewrite Hd, Hc. Qed.

(** C7, as amended. After [clearDraft] the channel's draft is the object
    with empty content, no replies and no files, and no file id of the
    cleared draft is left in the attachment cache. *)
Theorem clearDraft_resets channelId s :
  getDraft channelId (clearDraft channelId s)
  = {| content := Some ""; replies := Some []; files := Some [] |}
  ∧ ∀ fileId, fileId ∈ default [] (files (getDraft channelId s)) →
      getFile fileId (clearDraft channelId s) = None.
Proof.
  split.
  - unfold clearDraft, setDraft_data. by rewrite getDraft_set_drafts.
  - intros f Hf. unfold clearDraft, setDraft_data, getFile, set_drafts; simpl.
    rewrite release_lookup. by rewrite bool_decide_eq_true_2.
Qed.

(** *** [insertText] *)

Lemma length_substring_prefix (n : nat) (s : string) :
  n ≤ String.length s → String.length (String.substring 0 n s) = n.
Proof.
  revert n. induction s as [|c s IH]; intros [|n] Hn; simpl in *; try done; try lia.
  rewrite IH; lia.
Qed.

Lemma slice_prefix_length (c : string) (i : Z) :
  (0 ≤ i ≤ Js.str_length c)%Z → Js.str_length (Js.slice c 0 i) = i.
Proof.
  unfold Js.str_length, Js.slice, Js.clamp_index. intros Hi.
  destruct (Z.ltb_spec i 0) as [?|_]; [lia|]. cbn [Z.ltb Z.compare].
  rewrite Z.min_l, Z.min_l by lia. cbn [Z.to_nat].
  rewrite length_substring_prefix by lia. lia.
Qed.

Lemma merge_spread_field {A} (v : option A) : merge_field v (spread_field v) = v.
Proof. by destruct v. Qed.

(** C8, as amended. Without a live selection [insertText] changes
    nothing.  With one, the content of the selection's channel becomes
    [s.slice(0, start) + text + s.slice(end)], replies and files stay,
    and the selection becomes the empty range at
    [s.slice(0, start).length + text.length]: that is
    [start + text.length] when [start] lies within the content. *)
Theorem insertText_splices :
  (∀ text s, textSelection s = None → insertText text s = s)
  ∧ (∀ text s sel, textSelection s = Some sel →
      let c := default "" (content (getDraft (channelId sel) s)) in
      let s' := insertText text s in
      let cursor := (Js.str_length (Js.slice c 0 (start sel)) + Js.str_length text)%Z in
      content (getDraft (channelId sel) s')
      = Some (Js.slice c 0 (start sel) +:+ text
              +:+ Js.slice c (end_ sel) (Js.str_length c))
      ∧ replies (getDraft (channelId sel) s') = replies (getDraft (channelId sel) s)
      ∧ files (getDraft (channelId sel) s') = files (getDraft (channelId sel) s)
      ∧ textSelection s'
        = Some {| channelId := channelId sel; start := cursor; end_ := cursor |}
      ∧ ((0 ≤ start sel ≤ Js.str_length c)%Z →
         cursor = (start sel + Js.str_length text)%Z)).
Proof.
  split.
  - intros text s H. unfold insertText. by rewrite H.
  - intros text s sel H c s' cursor. subst s'. unfold insertText. rewrite H.
    fold c. rewrite setDraft_Updater.
    assert (∀ t x, getDraft (channelId sel) (with_textSelection t x)
                   = getDraft (channelId sel) x) as Hsel by done.
    rewrite Hsel, getDraft_set_drafts.
    cbn [merge_draft content replies files o_content o_replies o_files spread
         merge_field].
    rewrite !merge_spread_field. repeat split.
    intros Hi. subst cursor. by rewrite slice_prefix_length.
Qed.

End DraftFacts.

(** ** The upload loop *)

Section UploadFacts.

Variable world : World.

Lemma cache_step_refl c : cache_step c c.
Proof. intros g. destruct (c !! g) as [e|]; [|done]. by exists e. Qed.

Lemma cache_step_trans c1 c2 c3 :
  cache_step c1 c2 → cache_step c2 c3 → cache_step c1 c3.
Proof.
  intros H12 H23 g. specialize (H12 g). specialize (H23 g).
  destruct (c1 !! g) as [e1|].
  - destruct H12 as (e2 & E2 & F2 & M2). rewrite E2 in H23.
    destruct H23 as (e3 & E3 & F3 & M3). exists e3. repeat split; [done|congruence|].
    intros i Hi. by apply M3, M2.
  - by rewrite H12 in H23.
Qed.

Lemma cache_step_dom c c' g :
  cache_step c c' → is_Some (c' !! g) ↔ is_Some (c !! g).
Proof.
  intros H. specialize (H g). destruct (c !! g) as [e|].
  - destruct H as (e' & -> & _). split; eauto.
  - rewrite H. done.
Qed.

Lemma cache_step_memoized s s' fileId :
  cache_step (fileCache s) (fileCache s') →
  is_memoized s fileId → is_memoized s' fileId.
Proof.
  intros H (e & i & He & Hi). specialize (H fileId). unfold getFile in He.
  rewrite He in H. destruct H as (e' & He' & _ & Hm). exists e', i. split; [done|auto].
Qed.

Lemma cache_step_memoized_id s s' fileId i :
  cache_step (fileCache s) (fileCache s') →
  getFile fileId s ≫= memoized = Some i →
  getFile fileId s' ≫= memoized = Some i.
Proof.
  intros H Hi. specialize (H fileId). unfold getFile in *.
  destruct (fileCache s !! fileId) as [e|]; [|done].
  destruct H as (e' & -> & _ & Hm). simpl in *. auto.
Qed.

Lemma setProgress_lookup fileId p s g :
  fileCache (setProgress fileId p s) !! g
  = if decide (fileId = g) then with_progress p <$> fileCache s !! g
    else fileCache s !! g.
Proof.
  unfold setProgress. cbn [fileCache with_fileCache]. rewrite lookup_alter.
  case_decide; by subst.
Qed.

(** What the progress events of one request leave of an entry. *)
Lemma progress_events_lookup fileId ps s g :
  ∃ k : CacheEntry → CacheEntry,
    (∀ e, file (k e) = file e ∧ autumnId (k e) = autumnId e)
    ∧ fileCache (foldl (λ s p, setProgress fileId p s) s ps) !! g
      = k <$> fileCache s !! g.
Proof.
  revert s. induction ps as [|p ps IH]; intros s.
  - exists (λ e, e). split; [done|]. simpl. by rewrite option_fmap_id.
  - cbn [foldl]. destruct (IH (setProgress fileId p s)) as (k & Hk & ->).
    rewrite setProgress_lookup. case_decide.
    + exists (λ e, k (with_progress p e)). split.
      * intros e. destruct (Hk (with_progress p e)) as [-> ->]. done.
      * by rewrite <- option_fmap_compose.
    + by exists k.
Qed.

Lemma progress_events_frame fileId ps s :
  let s' := foldl (λ s p, setProgress fileId p s) s ps in
  drafts s' = drafts s ∧ outbox s' = outbox s
  ∧ textSelection s' = textSelection s
  ∧ setNodeReplacement s' = setNodeReplacement s ∧ events s' = events s.
Proof.
  revert s. induction ps as [|p ps IH]; intros s; [done|].
  cbn [foldl]. destruct (IH (setProgress fileId p s)) as (-> & -> & -> & -> & ->).
  done.
Qed.

(** One XMLHttpRequest: a recorded call, and a cache that differs in
    upload progress only. *)
Lemma xhr_upload_spec fileId f s :
  let r := w_upload world (events s) f in
  ∃ s', xhr_upload world fileId f s = (Return (up_success r, up_id r), s')
    ∧ events s' = EvUpload fileId f r :: events s
    ∧ drafts s' = drafts s ∧ outbox s' = outbox s
    ∧ textSelection s' = textSelection s
    ∧ setNodeReplacement s' = setNodeReplacement s
    ∧ ∀ g, ∃ k : CacheEntry → CacheEntry,
        (∀ e, file (k e) = file e ∧ autumnId (k e) = autumnId e)
        ∧ fileCache s' !! g = k <$> fileCache s !! g.
Proof.
  intros r. subst r. set (r := w_upload world (events s) f).
  eexists. split; [reflexivity|]. fold r.
  set (s1 := emit _ s).
  destruct (progress_events_frame fileId (up_progress r) s1) as (Hd & Ho & Ht & Hn & He).
  cbn zeta in *. unfold setProgress at 1 3 5 7 9.
  cbn [events drafts outbox textSelection setNodeReplacement with_fileCache].
  rewrite Hd, Ho, Ht, Hn, He. repeat split.
  intros g. rewrite setProgress_lookup.
  destruct (progress_events_lookup fileId (up_progress r) s1 g) as (k & Hk & ->).
  change (fileCache s1) with (fileCache s). case_decide.
  - exists (λ e, with_progress 1 (k e)). split; [|by rewrite <- option_fmap_compose].
    intros e. destruct (Hk e) as [<- <-]. done.
  - by exists k.
Qed.

(** One turn of the loop. *)
Lemma uploadFiles_cons fileId rest attachments s :
  uploadFiles world (fileId :: rest) attachments s
  = match getFile fileId s with
    | None => (Throw TypeError, s)
    | Some entry =>
        match memoized entry with
        | Some i => uploadFiles world rest (attachments ++ [i]) s
        | None =>
            let r := w_upload world (events s) (file entry) in
            let s1 := snd (xhr_upload world fileId (file entry) s) in
            if up_success r
            then match memoize fileId (up_id r) s1 with
                 | (Return _, s2) =>
                     uploadFiles world rest (attachments ++ [up_id r]) s2
                 | (Throw e, s2) => (Throw e, s2)
                 end
            else (Throw UploadError, s1)
        end
    end.
Proof.
  cbn [uploadFiles]. unfold bind at 1, gets.
  destruct (getFile fileId s) as [entry|]; [|done].
  destruct (memoized entry); [done|].
  unfold bind at 1. cbn [xhr_upload fst snd negb].
  destruct (up_success _); [|done]. cbn [negb]. unfold bind at 1.
  by destruct (memoize _ _ _) as [[]].
Qed.

(** The store after the upload of a file that had no server-side id,
    once the id is memoized. *)
Lemma upload_and_memoize fileId entry s :
  getFile fileId s = Some entry → memoized entry = None →
  let r := w_upload world (events s) (file entry) in
  ∃ s2 entry',
    memoize fileId (up_id r) (snd (xhr_upload world fileId (file entry) s))
    = (Return tt, s2)
    ∧ events s2 = EvUpload fileId (file entry) r :: events s
    ∧ drafts s2 = drafts s ∧ outbox s2 = outbox s
    ∧ textSelection s2 = textSelection s
    ∧ setNodeReplacement s2 = setNodeReplacement s
    ∧ getFile fileId s2 = Some entry'
    ∧ file entry' = file entry ∧ autumnId entry' = Some (up_id r)
    ∧ cache_step (fileCache s) (fileCache s2).
Proof.
  intros Hentry Hmemo r.
  destruct (xhr_upload_spec fileId (file entry) s)
    as (s1 & E1 & Hev & Hd & Ho & Ht & Hn & Hc).
  fold r in E1, Hev. rewrite E1. cbn [snd]. unfold memoize.
  destruct (Hc fileId) as (k & Hk & Hl). unfold getFile in Hentry.
  rewrite Hentry in Hl. rewrite Hl. cbn [fmap option_fmap option_map].
  destruct (Hk entry) as [Hf Ha].
  eexists _, _. split; [reflexivity|].
  cbn [events drafts outbox textSelection setNodeReplacement fileCache
       with_fileCache getFile file autumnId].
  unfold getFile. cbn [fileCache with_fileCache]. rewrite lookup_insert_eq.
  repeat split; try done.
  intros g. destruct (decide (g = fileId)) as [->|Hne].
  - rewrite Hentry, lookup_insert_eq. eexists. split; [done|].
    split; [done|]. intros i. by rewrite Hmemo.
  - rewrite lookup_insert_ne by done. destruct (Hc g) as (k' & Hk' & ->).
    destruct (fileCache s !! g) as [e|]; [|done]. exists (k' e). split; [done|].
    destruct (Hk' e) as [Hf' Ha']. split; [done|]. unfold memoized. by rewrite Ha'.
Qed.

(** The loop touches nothing but the cache and the trace.  Its calls
    are uploads that succeeded, but for the last one when it throws
    ["Upload Error"]; when it returns, every file had a cache entry. *)
Lemma uploadFiles_frame files : ∀ attachments s r s',
  uploadFiles world files attachments s = (r, s') →
  drafts s' = drafts s ∧ outbox s' = outbox s
  ∧ textSelection s' = textSelection s
  ∧ setNodeReplacement s' = setNodeReplacement s
  ∧ cache_step (fileCache s) (fileCache s')
  ∧ ∃ older, Forall successful_upload older
      ∧ match r with
        | Return _ =>
            events s' = older ++ events s
            ∧ Forall (λ fileId, is_Some (fileCache s !! fileId)) files
        | Throw UploadError =>
            ∃ last, failed_upload last ∧ events s' = last :: older ++ events s
        | Throw TypeError => events s' = older ++ events s
        | Throw SendError => False
        end.
Proof.
  induction files as [|fileId rest IH]; intros attachments s r s' H.
  - inversion H; subst. repeat split; [apply cache_step_refl|].
    exists []. by repeat split.
  - rewrite uploadFiles_cons in H.
    destruct (getFile fileId s) as [entry|] eqn:Hentry.
    2:{ inversion H; subst. repeat split; [apply cache_step_refl|]. by exists []. }
    destruct (memoized entry) as [i|] eqn:Hmemo.
    { apply IH in H as (? & ? & ? & ? & ? & older & ? & Hr).
      repeat split; try done. exists older. split; [done|].
      destruct r as [|[]]; try done. destruct Hr. split; [done|].
      constructor; [by exists entry|done]. }
    cbn zeta in H.
    destruct (up_success (w_upload world (events s) (file entry))) eqn:Hok.
    + destruct (upload_and_memoize fileId entry s Hentry Hmemo)
        as (s2 & e' & E & Hev & Hd & Ho & Ht & Hn & _ & _ & _ & Hstep).
      cbn zeta in E. rewrite E in H.
      apply IH in H as (Hd2 & Ho2 & Ht2 & Hn2 & Hstep2 & older & Hall & Hr).
      repeat split; try congruence.
      { eapply cache_step_trans; eauto. }
      eexists (older ++ [_]). split.
      { apply Forall_app. split; [done|]. constructor; [|done].
        do 3 eexists. split; [reflexivity|done]. }
      rewrite Hev in Hr. destruct r as [|[]]; try done.
      * destruct Hr as [-> Hrest]. rewrite <- app_assoc. split; [done|].
        constructor; [by exists entry|].
        eapply Forall_impl; [exact Hrest|]. intros g Hg.
        by apply (cache_step_dom _ _ g Hstep).
      * rewrite <- app_assoc. done.
      * destruct Hr as (last & Hl & ->). exists last. by rewrite <- app_assoc.
    + destruct (xhr_upload_spec fileId (file entry) s)
        as (s1 & E1 & Hev & Hd & Ho & Ht & Hn & Hc).
      rewrite E1 in H. cbn [snd] in H. inversion H; subst.
      repeat split; try done.
      * intros g. destruct (Hc g) as (k & Hk & ->).
        destruct (fileCache s !! g) as [e|]; [|done]. exists (k e). split; [done|].
        destruct (Hk e) as [Hf Ha]. split; [done|]. unfold memoized. by rewrite Ha.
      * exists []. split; [done|]. eexists. split; [|by rewrite Hev].
        do 3 eexists. split; [reflexivity|done].
Qed.

(** With an attachment server whose ids are non-empty strings, every
    file of a loop that returned holds a server-side id afterwards, and
    the ids pushed are those, in the order of the files. *)
Lemma uploadFiles_memoizes files :
  (∀ h f, up_id (w_upload world h f) ≠ "") →
  ∀ attachments s attachments' s',
  uploadFiles world files attachments s = (Return attachments', s') →
  Forall (is_memoized s') files
  ∧ attachments' = attachments ++ memoized_ids s' files.
Proof.
  intros Hid. induction files as [|fileId rest IH]; intros attachments s atts' s' H.
  - inversion H; subst. split; [done|]. by rewrite app_nil_r.
  - pose proof H as Hall. rewrite uploadFiles_cons in H.
    destruct (getFile fileId s) as [entry|] eqn:Hentry; [|done].
    destruct (memoized entry) as [i|] eqn:Hmemo.
    { pose proof (uploadFiles_frame _ _ _ _ _ H) as (_ & _ & _ & _ & Hstep & _).
      apply IH in H as [Hrest ->].
      assert (getFile fileId s' ≫= memoized = Some i) as Hi.
      { apply (cache_step_memoized_id s); [done|]. by rewrite Hentry. }
      split.
      - constructor; [|done]. apply (cache_step_memoized s); [done|]. by exists entry, i.
      - unfold memoized_ids. cbn [omap list_omap]. fold (memoized_ids s' rest).
        rewrite Hi. by rewrite <- app_assoc. }
    cbn zeta in H.
    destruct (up_success (w_upload world (events s) (file entry))) eqn:Hok; [|done].
    destruct (upload_and_memoize fileId entry s Hentry Hmemo)
      as (s2 & e' & E & _ & _ & _ & _ & _ & He' & _ & Ha & _).
    cbn zeta in E. rewrite E in H.
    pose proof (uploadFiles_frame _ _ _ _ _ H) as (_ & _ & _ & _ & Hstep & _).
    apply IH in H as [Hrest ->].
    assert (memoized e' = Some (up_id (w_upload world (events s) (file entry)))) as Hm.
    { unfold memoized, Js.string_truthy. rewrite Ha.
      destruct (String.eqb_spec (up_id (w_upload world (events s) (file entry))) "") as [Heq|]; [|done].
      by apply Hid in Heq. }
    assert (getFile fileId s' ≫= memoized
            = Some (up_id (w_upload world (events s) (file entry)))) as Hi.
    { apply (cache_step_memoized_id s2); [done|]. by rewrite He'. }
    split.
    + constructor; [|done]. apply (cache_step_memoized s2); [done|]. by eexists _, _.
    + unfold memoized_ids. cbn [omap list_omap]. fold (memoized_ids s' rest).
      rewrite Hi. by rewrite <- app_assoc.
Qed.

(** A loop over files that all hold a server-side id uploads nothing. *)
Lemma uploadFiles_reuse files : ∀ attachments s,
  Forall (is_memoized s) files →
  uploadFiles world files attachments s
  = (Return (attachments ++ memoized_ids s files), s).
Proof.
  induction files as [|fileId rest IH]; intros attachments s Hall.
  - cbn. unfold ret. by rewrite app_nil_r.
  - inversion Hall as [|? ? (e & i & He & Hi) Hrest]; subst.
    rewrite uploadFiles_cons, He, Hi, IH by done.
    unfold memoized_ids. cbn [omap list_omap]. rewrite He. cbn [mbind option_bind].
    rewrite Hi. by rewrite <- app_assoc.
Qed.

End UploadFacts.

(** ** The send pipeline *)

Section SendFacts.

Variable CONFIGURATION : Configuration.
Variable world : World.

(** Releasing the files of a sent message leaves the outbox alone and
    calls nothing but [URL.revokeObjectURL]. *)
Lemma removeFiles_frame channel files s :
  let s' := foldl (λ s fileId, removeFile channel fileId s) s files in
  outbox s' = outbox s
  ∧ ∃ revoked, Forall is_revoke revoked ∧ events s' = revoked ++ events s.
Proof.
  revert s. induction files as [|f files IH]; intros s.
  - split; [done|]. by exists [].
  - cbn [foldl]. cbn zeta in IH.
    destruct (IH (removeFile channel f s)) as (-> & revoked & Hall & ->).
    unfold removeFile, deleteFile. rewrite setDraft_Updater. unfold set_drafts.
    cbn [outbox events with_drafts with_fileCache]. split.
    + by repeat case_match.
    + repeat case_match; try (by exists revoked).
      eexists (revoked ++ [_]). rewrite <- app_assoc. split; [|reflexivity].
      apply Forall_app. split; [done|]. constructor; [by eexists|done].
Qed.

Lemma after_pop_frame channel existingDraft s :
  outbox (after_pop CONFIGURATION channel existingDraft s) = outbox s
  ∧ fileCache (after_pop CONFIGURATION channel existingDraft s) = fileCache s
  ∧ events (after_pop CONFIGURATION channel existingDraft s) = events s
  ∧ textSelection (after_pop CONFIGURATION channel existingDraft s) = textSelection s.
Proof. by destruct existingDraft. Qed.

(** The runs of [sendDraft], case by case. *)
Lemma sendDraft_cases channel existingDraft s r s' :
  sendDraft CONFIGURATION world channel existingDraft s = (r, s') →
  let draft := payload_of CONFIGURATION channel existingDraft s in
  let s0 := after_pop CONFIGURATION channel existingDraft s in
  let key := w_ulid world (events s0) in
  (nothing_to_send draft = true ∧ r = Return tt ∧ s' = s0)
  ∨ (nothing_to_send draft = false
     ∧ ∃ ra s2,
         uploadFiles world (default [] (files draft)) [] (queued world channel draft s0)
         = (ra, s2)
         ∧ match ra with
           | Throw e => r = Throw e ∧ s' = s2
           | Return attachments =>
               let data := message_data draft attachments in
               let ok := w_sendMessage world (events s2) channel data key in
               let s3 := emit (EvSendMessage channel data key ok) s2 in
               r = Return tt
               ∧ s' = if ok
                      then
                        let s4 :=
                          foldl (λ s fileId, removeFile channel fileId s) s3
                            (default [] (files draft)) in
                        set_outbox channel
                          (filter (λ entry, idempotencyKey entry ≠ key)
                             (getPendingMessages channel s4)) s4
                      else
                        set_outbox channel
                          (mark_failed key <$> getPendingMessages channel s3) s3
           end).
Proof.
  intros H draft s0 key. unfold sendDraft in H. unfold bind at 1 in H.
  assert ((match existingDraft with
           | Some d => ret d
           | None => λ s, let '(d, s) := popDraft CONFIGURATION channel s in (Return d, s)
           end) s = (Return draft, s0)) as E.
  { subst draft s0. destruct existingDraft; [done|]. cbn.
    by destruct (popDraft CONFIGURATION channel s). }
  rewrite E in H. clear E.
  destruct (nothing_to_send draft) eqn:Hn.
  { left. inversion H. done. }
  right. split; [done|].
  unfold bind at 1, ulid in H. unfold bind at 1, modify in H.
  fold key in H. fold (queued_entry draft key) in H.
  change (set_outbox channel _ (emit (EvUlid key) s0))
    with (queued world channel draft s0) in H.
  unfold bind at 1 in H.
  assert ((if Nat.ltb 0 (length (default [] (files draft)))
           then uploadFiles world (default [] (files draft)) []
           else ret []) (queued world channel draft s0)
          = uploadFiles world (default [] (files draft)) [] (queued world channel draft s0)) as E.
  { by destruct (default [] (files draft)). }
  rewrite E in H. clear E.
  destruct (uploadFiles world _ _ _) as [ra s2]. exists ra, s2. split; [done|].
  destruct ra as [attachments|e]; [|by inversion H].
  unfold try_catch, bind, channel_sendMessage, modify in H. cbn zeta in H |- *.
  destruct (w_sendMessage world (events s2) channel _ key); by inversion H.
Qed.

Lemma successful_not_failed l :
  Forall successful_upload l → ¬ Exists failed_upload l.
Proof.
  intros Hall Hex. apply Exists_exists in Hex as (e & Hin & f & x & r & -> & Hr).
  rewrite Forall_forall in Hall.
  destruct (Hall _ Hin) as (? & ? & ? & Heq & Hr'). inversion Heq; subst.
  congruence.
Qed.

Lemma successful_not_send l :
  Forall successful_upload l → ¬ Exists failed_send l.
Proof.
  intros Hall Hex. apply Exists_exists in Hex as (e & Hin & ? & ? & ? & ->).
  rewrite Forall_forall in Hall. by destruct (Hall _ Hin) as (? & ? & ? & ? & _).
Qed.

Lemma revoke_not_upload l : Forall is_revoke l → ¬ Exists failed_upload l.
Proof.
  intros Hall Hex. apply Exists_exists in Hex as (e & Hin & f & x & r & -> & Hr).
  rewrite Forall_forall in Hall. by destruct (Hall _ Hin) as (? & ?).
Qed.

Lemma revoke_not_send l : Forall is_revoke l → ¬ Exists failed_send l.
Proof.
  intros Hall Hex. apply Exists_exists in Hex as (e & Hin & ? & ? & ? & ->).
  rewrite Forall_forall in Hall. by destruct (Hall _ Hin) as (? & ?).
Qed.

Lemma queued_frame channel draft s :
  let key := w_ulid world (events s) in
  events (queued world channel draft s) = EvUlid key :: events s
  ∧ outbox (queued world channel draft s)
    = <[channel := getPendingMessages channel s ++ [queued_entry draft key]]> (outbox s)
  ∧ fileCache (queued world channel draft s) = fileCache s
  ∧ drafts (queued world channel draft s) = drafts s.
Proof. done. Qed.

(** C1, as amended. When the payload popped from the live draft has
    neither content nor files, [sendDraft] queues nothing, uploads and
    sends nothing and leaves the attachment cache as it is; the pop
    itself stays: the draft is left with empty content, no replies, and
    the files from index [MAX_ATTACHMENTS] on.  With a positive limit
    that is the content and the files it had, without its replies. *)
Theorem sendDraft_nothing_to_send channel s :
  nothing_to_send (fst (popDraft CONFIGURATION channel s)) = true →
  let d := getDraft channel s in
  let s' := snd (sendDraft CONFIGURATION world channel None s) in
  fst (sendDraft CONFIGURATION world channel None s) = Return tt
  ∧ outbox s' = outbox s
  ∧ events s' = events s
  ∧ fileCache s' = fileCache s
  ∧ getDraft channel s'
    = {| content := Some ""; replies := Some [];
         files := drop (MAX_ATTACHMENTS CONFIGURATION) <$> files d |}
  ∧ (0 < MAX_ATTACHMENTS CONFIGURATION →
     default "" (content (getDraft channel s')) = default "" (content d)
     ∧ default [] (files (getDraft channel s')) = default [] (files d)).
Proof.
  intros Hn d s'.
  destruct (sendDraft CONFIGURATION world channel None s) as [r s1] eqn:E.
  apply sendDraft_cases in E. cbn zeta in E.
  destruct E as [(_ & -> & Hs)|(Hn' & _)].
  2:{ cbn [payload_of] in Hn'. congruence. }
  subst s'. cbn [fst snd]. rewrite Hs. cbn [after_pop].
  destruct (popDraft_result CONFIGURATION channel s) as (Hp & Hleft).
  cbn zeta in Hp, Hleft. fold d in Hp, Hleft.
  assert (content (fst (popDraft CONFIGURATION channel s)) = content d) as Hc
    by (by rewrite Hp).
  assert (files (fst (popDraft CONFIGURATION channel s))
          = take (MAX_ATTACHMENTS CONFIGURATION) <$> files d) as Hf
    by (by rewrite Hp).
  repeat split; try done.
  - rewrite Hleft. cbn [content]. unfold nothing_to_send in Hn. rewrite Hc in Hn.
    apply andb_true_iff in Hn as [Hn _]. apply negb_true_iff in Hn.
    unfold Js.string_truthy in Hn. apply negb_false_iff in Hn.
    by apply String.eqb_eq in Hn.
  - rewrite Hleft. cbn [files]. unfold nothing_to_send in Hn. rewrite Hf in Hn.
    apply andb_true_iff in Hn as [_ Hn]. apply negb_true_iff in Hn.
    apply Nat.ltb_ge in Hn. destruct (files d) as [l|]; [|done]. cbn in *.
    rewrite length_take in Hn. assert (length l = 0) as Hl by lia.
    destruct l; [|done]. by rewrite drop_nil.
Qed.

(** The runs of [sendDraft] with the calls each of them makes: nothing
    to send; an upload that failed; a file missing from the cache; a
    message send that failed; a message sent. *)
Lemma sendDraft_runs channel existingDraft s r s' :
  sendDraft CONFIGURATION world channel existingDraft s = (r, s') →
  let draft := payload_of CONFIGURATION channel existingDraft s in
  let s0 := after_pop CONFIGURATION channel existingDraft s in
  let key := w_ulid world (events s) in
  let pending := getPendingMessages channel s in
  (nothing_to_send draft = true ∧ r = Return tt ∧ s' = s0)
  ∨ (nothing_to_send draft = false
     ∧ ∃ ra s2 older,
         uploadFiles world (default [] (files draft)) [] (queued world channel draft s0)
         = (ra, s2)
         ∧ Forall successful_upload older
         ∧ match ra with
           | Throw UploadError =>
               r = Throw UploadError ∧ s' = s2
               ∧ ∃ last, failed_upload last
                   ∧ events s' = (last :: older ++ [EvUlid key]) ++ events s
           | Throw TypeError =>
               r = Throw TypeError ∧ s' = s2
               ∧ events s' = (older ++ [EvUlid key]) ++ events s
           | Throw SendError => False
           | Return attachments =>
               let data := message_data draft attachments in
               r = Return tt
               ∧ events s2 = (older ++ [EvUlid key]) ++ events s
               ∧ ((s' = set_outbox channel
                          (mark_failed key <$> (pending ++ [queued_entry draft key]))
                          (emit (EvSendMessage channel data key false) s2)
                   ∧ events s'
                     = (EvSendMessage channel data key false
                          :: older ++ [EvUlid key]) ++ events s)
                  ∨ (∃ revoked, Forall is_revoke revoked
                       ∧ events s'
                         = (revoked ++ EvSendMessage channel data key true
                              :: older ++ [EvUlid key]) ++ events s))
           end).
Proof.
  intros H draft s0 key pending.
  destruct (after_pop_frame channel existingDraft s) as (Ho0 & Hc0 & He0 & _).
  fold s0 in Ho0, Hc0, He0.
  apply sendDraft_cases in H. cbn zeta in H. fold draft s0 in H.
  rewrite He0 in H. fold key in H.
  destruct H as [H|(Hn & ra & s2 & Hup & H)]; [by left|right].
  split; [done|].
  pose proof (uploadFiles_frame _ _ _ _ _ _ Hup) as (_ & Ho2 & _ & _ & _ & older & Hall & Hr).
  destruct (queued_frame channel draft s0) as (Hq & Hqo & _ & _).
  cbn zeta in Hq, Hqo. rewrite Hq, He0 in Hr. fold key in Hr. rewrite He0 in Hqo.
  fold key in Hqo.
  exists ra, s2, older. split; [done|]. split; [done|].
  destruct ra as [attachments|[]]; [| |destruct H as [-> ->]|done].
  - destruct Hr as [Hr _]. destruct H as [-> ->].
    assert (events s2 = (older ++ [EvUlid key]) ++ events s) as Hr'
      by (by rewrite Hr, <- app_assoc).
    split; [done|]. split; [done|].
    destruct (w_sendMessage _ _ _ _ _).
    + right.
      match goal with
      | |- context [foldl ?f ?s3 ?l] =>
          destruct (removeFiles_frame channel l s3) as (_ & revoked & Hrev & Hev')
      end.
      exists revoked. split; [done|].
      cbn [events set_outbox with_outbox]. cbn zeta in Hev'. rewrite Hev'.
      cbn [events emit]. rewrite Hr'. rewrite <- (app_assoc revoked). reflexivity.
    + left. split.
      * f_equal. f_equal. unfold getPendingMessages at 1.
        cbn [outbox emit]. rewrite Ho2, Hqo, lookup_insert_eq.
        cbn [default]. subst pending. unfold getPendingMessages. by rewrite Ho0.
      * cbn [events set_outbox with_outbox emit]. by rewrite Hr'.
  - destruct H as [-> ->]. repeat split. by rewrite Hr, <- app_assoc.
  - repeat split. destruct Hr as (last & Hl & Hr). exists last. split; [done|].
    rewrite Hr. cbn [app]. by rewrite <- app_assoc.
Qed.

Ltac no_such_call Hex :=
  repeat first
    [ apply Exists_app in Hex as [Hex|Hex]
    | apply Exists_cons in Hex as [(? & ? & ? & ? & ?)|Hex]; [done|]
    | apply Exists_cons in Hex as [(? & ? & ? & ?)|Hex]; [done|]
    | apply Exists_nil in Hex; done
    | apply successful_not_failed in Hex; done
    | apply successful_not_send in Hex; done
    | apply revoke_not_upload in Hex; done
    | apply revoke_not_send in Hex; done ].

(** C2. When an upload of a send attempt ends without success, the
    attempt throws the upload error; that upload is the last call it
    makes, after the uploads that succeeded before it: no later
    attachment is tried and no message is sent; and the entry queued
    for the attempt is in the outbox, still [sending]. *)
Theorem sendDraft_upload_error channel existingDraft s r s' new :
  sendDraft CONFIGURATION world channel existingDraft s = (r, s') →
  events s' = new ++ events s →
  Exists failed_upload new →
  let draft := payload_of CONFIGURATION channel existingDraft s in
  r = Throw UploadError
  ∧ ∃ last older key,
      new = last :: older ++ [EvUlid key]
      ∧ failed_upload last
      ∧ Forall successful_upload older
      ∧ outbox s' !! channel
        = Some (getPendingMessages channel s ++ [queued_entry draft key]).
Proof.
  intros H Hev Hex draft.
  destruct (after_pop_frame channel existingDraft s) as (Ho0 & Hc0 & He0 & _).
  apply sendDraft_runs in H. cbn zeta in H. fold draft in H.
  destruct H as [(_ & _ & ->)|(_ & ra & s2 & older & Hup & Hall & H)].
  { rewrite He0 in Hev. apply (app_inv_tail _ [] new) in Hev. subst new.
    by apply Exists_nil in Hex. }
  destruct ra as [attachments|[]]; [| | |done].
  - exfalso. destruct H as (_ & _ & [[_ Hev']|(revoked & Hrev & Hev')]);
      rewrite Hev' in Hev; apply app_inv_tail in Hev; subst new; no_such_call Hex.
  - exfalso. destruct H as (_ & _ & Hev'). rewrite Hev' in Hev.
    apply app_inv_tail in Hev. subst new. no_such_call Hex.
  - destruct H as (-> & -> & last & Hlast & Hev'). split; [done|].
    rewrite Hev' in Hev. apply app_inv_tail in Hev. subst new.
    eexists last, older, _. split; [reflexivity|]. repeat split; try done.
    apply uploadFiles_frame in Hup as (_ & -> & _).
    destruct (queued_frame channel draft (after_pop CONFIGURATION channel existingDraft s))
      as (_ & -> & _). rewrite lookup_insert_eq, He0.
    unfold getPendingMessages. by rewrite Ho0.
Qed.

Lemma mark_failed_other key (e : UnsentMessage) :
  idempotencyKey e ≠ key → mark_failed key e = e.
Proof. intros H. unfold mark_failed. by rewrite bool_decide_eq_false_2. Qed.

Lemma mark_failed_queued key draft :
  mark_failed key (queued_entry draft key)
  = {| idempotencyKey := key; status := failed; payload := draft |}.
Proof. unfold mark_failed. cbn. by rewrite bool_decide_eq_true_2. Qed.

(** C3. When the uploads of a send attempt all succeed and the message
    send fails, the attempt returns; the entry it queued is in its
    place in the outbox with status [failed] and the payload it was
    queued with; the entries before it that carry another key are what
    they were; and the attachment cache has lost no entry, so every
    file of the payload is still cached. *)
Theorem sendDraft_send_failure channel existingDraft s r s' new :
  sendDraft CONFIGURATION world channel existingDraft s = (r, s') →
  events s' = new ++ events s →
  Exists failed_send new →
  let draft := payload_of CONFIGURATION channel existingDraft s in
  let pending := getPendingMessages channel s in
  r = Return tt
  ∧ ∃ key data older entries,
      new = EvSendMessage channel data key false :: older ++ [EvUlid key]
      ∧ Forall successful_upload older
      ∧ outbox s' !! channel = Some entries
      ∧ length entries = S (length pending)
      ∧ entries !! length pending
        = Some {| idempotencyKey := key; status := failed; payload := draft |}
      ∧ (∀ i e, pending !! i = Some e → idempotencyKey e ≠ key →
           entries !! i = Some e)
      ∧ (∀ other, other ≠ channel → outbox s' !! other = outbox s !! other)
      ∧ (∀ g, is_Some (fileCache s' !! g) ↔ is_Some (fileCache s !! g))
      ∧ Forall (λ fileId, is_Some (fileCache s' !! fileId))
          (default [] (files draft)).
Proof.
  intros H Hev Hex draft pending.
  destruct (after_pop_frame channel existingDraft s) as (Ho0 & Hc0 & He0 & _).
  apply sendDraft_runs in H. cbn zeta in H. fold draft pending in H.
  destruct H as [(_ & _ & ->)|(_ & ra & s2 & older & Hup & Hall & H)].
  { rewrite He0 in Hev. apply (app_inv_tail _ [] new) in Hev. subst new.
    by apply Exists_nil in Hex. }
  destruct ra as [attachments|[]]; [| | |done].
  2:{ exfalso. destruct H as (_ & _ & Hev'). rewrite Hev' in Hev.
      apply app_inv_tail in Hev. subst new. no_such_call Hex. }
  2:{ exfalso. destruct H as (_ & _ & last & (? & ? & ? & -> & _) & Hev').
      rewrite Hev' in Hev. apply app_inv_tail in Hev. subst new. no_such_call Hex. }
  destruct H as (-> & _ & [[-> Hev']|(revoked & Hrev & Hev')]).
  2:{ exfalso. rewrite Hev' in Hev. apply app_inv_tail in Hev. subst new.
      no_such_call Hex. }
  split; [done|]. rewrite Hev' in Hev. apply app_inv_tail in Hev. subst new.
  apply uploadFiles_frame in Hup as (_ & Ho2 & _ & _ & Hstep & _ & _ & _ & Hfiles).
  destruct (queued_frame channel draft (after_pop CONFIGURATION channel existingDraft s))
    as (_ & Hqo & Hqc & _). rewrite Hqc, Hc0 in Hstep, Hfiles.
  eexists _, _, older, _. split; [reflexivity|]. split; [done|].
  cbn [outbox fileCache set_outbox with_outbox emit].
  rewrite lookup_insert_eq. split; [reflexivity|].
  rewrite fmap_app. cbn [fmap list_fmap]. rewrite mark_failed_queued.
  repeat split.
  - rewrite length_app, length_fmap. cbn. lia.
  - rewrite lookup_app_r; rewrite length_fmap; [|done]. by rewrite Nat.sub_diag.
  - intros i e Hi Hk. rewrite lookup_app_l.
    + rewrite list_lookup_fmap, Hi. cbn. by rewrite mark_failed_other.
    + rewrite length_fmap. by eapply lookup_lt_Some.
  - intros other Hne. rewrite lookup_insert_ne by done.
    rewrite Ho2, Hqo, lookup_insert_ne by done. by rewrite Ho0.
  - by apply (cache_step_dom _ _ g Hstep).
  - by apply (cache_step_dom _ _ g Hstep).
  - eapply Forall_impl; [exact Hfiles|]. intros g Hg. by apply (cache_step_dom _ _ g Hstep).
Qed.

Lemma memoized_ids_cache s s' files :
  fileCache s = fileCache s' → memoized_ids s files = memoized_ids s' files.
Proof. intros H. unfold memoized_ids, getFile. by rewrite H. Qed.

Lemma is_memoized_cache s s' fileId :
  fileCache s = fileCache s' → is_memoized s fileId → is_memoized s' fileId.
Proof. intros H. unfold is_memoized, getFile. by rewrite H. Qed.

(** [find] reaches the entry of the attempt when its key is new to the
    outbox. *)
Lemma find_queued key draft (pending : list UnsentMessage) :
  Forall (λ e, idempotencyKey e ≠ key) pending →
  List.find (λ entry, bool_decide (idempotencyKey entry = key))
    (mark_failed key <$> (pending ++ [queued_entry draft key]))
  = Some {| idempotencyKey := key; status := failed; payload := draft |}.
Proof.
  induction 1 as [|e pending He _ IH]; cbn.
  - rewrite mark_failed_queued. cbn. by rewrite bool_decide_eq_true_2.
  - rewrite mark_failed_other by done. by rewrite bool_decide_eq_false_2.
Qed.

(** C4. The loop takes the files in order.  A file whose cache entry
    holds a server-side id is not uploaded: the loop goes on with that
    id pushed.  A file without one is uploaded, and the loop goes on
    with the returned id pushed and stored in the cache entry.  And
    when a send attempt has failed at the message send, [retrySend] of
    its entry uploads nothing: it draws a key and sends the same
    message data, attachment ids included.  The ids a loop has pushed
    when it returns are the ids the cache then holds for the files, in
    the order of the files.  The last two parts are for an attachment
    server whose ids are non-empty strings, the retry for a key that
    is new to the channel's outbox. *)
Theorem attachments_uploaded_once :
  (∀ fileId rest attachments s entry i,
     getFile fileId s = Some entry → memoized entry = Some i →
     uploadFiles world (fileId :: rest) attachments s
     = uploadFiles world rest (attachments ++ [i]) s)
  ∧ (∀ fileId rest attachments s entry,
     getFile fileId s = Some entry → memoized entry = None →
     let r := w_upload world (events s) (file entry) in
     up_success r = true →
     ∃ s1 entry',
       uploadFiles world (fileId :: rest) attachments s
       = uploadFiles world rest (attachments ++ [up_id r]) s1
       ∧ events s1 = EvUpload fileId (file entry) r :: events s
       ∧ getFile fileId s1 = Some entry'
       ∧ autumnId entry' = Some (up_id r))
  ∧ (∀ files attachments s attachments' s',
     (∀ h f, up_id (w_upload world h f) ≠ "") →
     uploadFiles world files attachments s = (Return attachments', s') →
     Forall (is_memoized s') files
     ∧ attachments' = attachments ++ memoized_ids s' files)
  ∧ (∀ channel existingDraft s r s1 new,
     (∀ h f, up_id (w_upload world h f) ≠ "") →
     sendDraft CONFIGURATION world channel existingDraft s = (r, s1) →
     events s1 = new ++ events s →
     Exists failed_send new →
     (∀ e, e ∈ getPendingMessages channel s →
           idempotencyKey e ≠ w_ulid world (events s)) →
     ∃ key data older,
       new = EvSendMessage channel data key false :: older ++ [EvUlid key]
       ∧ ∀ r2 s2,
           retrySend CONFIGURATION world channel key s1 = (r2, s2) →
           ∃ key' ok revoked,
             Forall is_revoke revoked
             ∧ events s2
               = revoked ++ EvSendMessage channel data key' ok
                   :: EvUlid key' :: events s1).
Proof.
  split; [|split; [|split]].
  - intros fileId rest attachments s entry i He Hi.
    by rewrite uploadFiles_cons, He, Hi.
  - intros fileId rest attachments s entry He Hm r Hok.
    destruct (upload_and_memoize world fileId entry s He Hm)
      as (s1 & e' & E & Hev & _ & _ & _ & _ & He' & _ & Ha & _).
    exists s1, e'. rewrite uploadFiles_cons, He, Hm. cbn zeta. fold r.
    rewrite Hok. cbn zeta in E. fold r in E. by rewrite E.
  - intros files attachments s attachments' s' Hid H.
    by apply (uploadFiles_memoizes world files Hid attachments s).
  - intros channel existingDraft s r s1 new Hid H Hev Hex Hfresh.
    destruct (after_pop_frame channel existingDraft s) as (Ho0 & Hc0 & He0 & _).
    apply sendDraft_runs in H. cbn zeta in H.
    set (draft := payload_of CONFIGURATION channel existingDraft s) in *.
    set (key := w_ulid world (events s)) in *.
    destruct H as [(_ & _ & ->)|(Hn & ra & s2 & older & Hup & Hall & H)].
    { rewrite He0 in Hev. apply (app_inv_tail _ [] new) in Hev. subst new.
      by apply Exists_nil in Hex. }
    destruct ra as [attachments|[]]; [| | |done].
    2:{ exfalso. destruct H as (_ & _ & Hev'). rewrite Hev' in Hev.
        apply app_inv_tail in Hev. subst new. no_such_call Hex. }
    2:{ exfalso. destruct H as (_ & _ & last & (? & ? & ? & -> & _) & Hev').
        rewrite Hev' in Hev. apply app_inv_tail in Hev. subst new. no_such_call Hex. }
    destruct H as (-> & _ & [[Hs1 Hev']|(revoked & Hrev & Hev')]).
    2:{ exfalso. rewrite Hev' in Hev. apply app_inv_tail in Hev. subst new.
        no_such_call Hex. }
    rewrite Hev' in Hev. apply app_inv_tail in Hev. subst new.
    eexists key, _, older. split; [reflexivity|]. intros r2 s3 Hretry.
    apply uploadFiles_memoizes in Hup as [Hmemo Hatts]; [|done].
    cbn [app] in Hatts.
    assert (fileCache s1 = fileCache s2) as Hc1 by (by rewrite Hs1).
    unfold retrySend, bind, gets, modify in Hretry.
    assert (outbox s1 !! channel
            = Some (mark_failed key <$>
                      (getPendingMessages channel s ++ [queued_entry draft key]))) as Ho1.
    { rewrite Hs1. cbn [outbox set_outbox with_outbox]. apply lookup_insert_eq. }
    rewrite Ho1, find_queued in Hretry by (by apply Forall_forall).
    cbn [fmap option_fmap option_map payload] in Hretry.
    set (s1c := cancelSend channel key s1) in *.
    assert (fileCache (queued world channel draft s1c) = fileCache s2) as Hcq by done.
    unfold dropped in Hretry.
    match type of Hretry with
    | (_, snd ?run) = _ => destruct run as [r3 s4] eqn:Hrun
    end.
    cbn [snd] in Hretry. inversion Hretry; subst r2 s3. clear Hretry.
    rename Hrun into Hretry.
    apply sendDraft_cases in Hretry. cbn zeta in Hretry.
    cbn [payload_of after_pop] in Hretry.
    destruct Hretry as [(Hn' & _)|(_ & ra & s2r & Hup & Hr)]; [congruence|].
    rewrite uploadFiles_reuse in Hup.
    2:{ eapply Forall_impl; [exact Hmemo|]. intros g. by apply is_memoized_cache. }
    inversion Hup; subst ra s2r. clear Hup.
    cbn [app] in Hr. rewrite (memoized_ids_cache _ s2) in Hr by done.
    rewrite <- Hatts in Hr. destruct Hr as [-> ->].
    change (events (queued world channel draft s1c))
      with (EvUlid (w_ulid world (events s1)) :: events s1).
    change (events s1c) with (events s1).
    destruct (w_sendMessage world _ channel _ _) eqn:Hok.
    + match goal with
      | |- context [foldl ?f ?s3 ?l] =>
          destruct (removeFiles_frame channel l s3) as (_ & revoked & Hrev & Hev2)
      end.
      eexists _, true, revoked. split; [done|].
      cbn [events set_outbox with_outbox]. cbn zeta in Hev2. by rewrite Hev2.
    + eexists _, false, []. split; [done|]. reflexivity.
Qed.

End SendFacts.

(** ** Validation of persisted state *)

Module CleanFacts.

Import Js Clean.

Lemma find_well_formed xs :
  Forall well_formed_reply xs → find malformed_reply xs = Return JUndefined.
Proof.
  induction 1 as [|x xs (kvs & i & b & -> & Hi & Hb) _ IH]; [done|].
  cbn. by rewrite Hi, Hb.
Qed.

Lemma validateReplies_well_formed r :
  well_formed_replies r → validateReplies r = Return true.
Proof.
  intros (xs & -> & Hne & Hall). unfold validateReplies.
  destruct xs; [done|]. cbn [length Nat.eqb]. by rewrite find_well_formed.
Qed.

Lemma validateReplies_array r :
  validateReplies r = Return true → ∃ xs, r = JArray xs ∧ xs ≠ [].
Proof.
  destruct r as [| | | | |xs|]; try done. destruct xs; [done|]. by eexists.
Qed.

(** What [find] hands back is negated as a value: an array whose first
    malformed element is falsy passes [validateReplies]. *)
Remark validateReplies_falsy_element :
  validateReplies (JArray [JNumber 0]) = Return true.
Proof. reflexivity. Qed.

Lemma cleaned_passes raw msg : cleaned raw msg → passes raw.
Proof.
  intros (Ho & Hs & Hk & (c & Hc & _) & _). repeat split; eauto.
Qed.

Lemma clean_message_step messages raw messages' :
  clean_message messages raw = Return messages' →
  (messages' = messages ∧ ¬ passes raw)
  ∨ ∃ msg, messages' = messages ++ [msg] ∧ cleaned raw msg.
Proof.
  unfold clean_message. intros H.
  destruct (typeof_object raw) eqn:Hobj; cbn [negb] in H.
  2:{ left. inversion H. split; [done|]. intros (? & _). congruence. }
  destruct (prop raw "status") as [st|] eqn:Hst; [|done]. cbn [cbind] in H.
  destruct (is_status st) eqn:Hs; cbn [negb] in H.
  2:{ left. inversion H. split; [done|]. intros (_ & (st' & Hst' & Hs') & _).
      congruence. }
  destruct (prop raw "idempotencyKey") as [k|] eqn:Hk; [|done]. cbn [cbind] in H.
  destruct k as [| | | |key| |];
    try (left; inversion H; split; [done|];
         intros (_ & _ & (? & ?) & _); congruence).
  destruct (prop raw "content") as [c|] eqn:Hc; [|done]. cbn [cbind] in H.
  destruct c as [| | | |c| |];
    try (left; inversion H; split; [done|];
         intros (_ & _ & _ & (? & ?)); congruence).
  destruct (prop raw "replies") as [r|] eqn:Hr; [|done]. cbn [cbind] in H.
  destruct (validateReplies r) as [valid|] eqn:Hv; [|done]. cbn [cbind] in H.
  right. inversion H. eexists. split; [reflexivity|].
  unfold cleaned. cbn [idempotencyKey status payload content replies files].
  repeat split; eauto.
Qed.

(** The loop over the messages of a channel: what it adds comes from
    messages that pass the checks, and every message that passes them adds
    an entry. *)
Lemma clean_messages raws : ∀ messages messages',
  cfold clean_message messages raws = Return messages' →
  ∃ added, messages' = messages ++ added
    ∧ Forall (λ msg, ∃ raw, raw ∈ raws ∧ cleaned raw msg) added
    ∧ ∀ raw, raw ∈ raws → passes raw → ∃ msg, msg ∈ added ∧ cleaned raw msg.
Proof.
  induction raws as [|raw raws IH]; intros messages messages' H.
  - inversion H. exists []. rewrite app_nil_r. repeat split; [done|].
    intros raw Hin. by apply elem_of_nil in Hin.
  - cbn [cfold] in H.
    destruct (clean_message messages raw) as [m1|] eqn:E; [|done]. cbn [cbind] in H.
    apply IH in H as (added & -> & Hall & Hex).
    assert (Forall (λ msg, ∃ raw0, raw0 ∈ raw :: raws ∧ cleaned raw0 msg) added) as Hall'.
    { eapply Forall_impl; [exact Hall|]. intros msg (r & Hin & Hc).
      exists r. split; [by apply elem_of_cons; right|done]. }
    apply clean_message_step in E as [[-> Hno]|(msg & -> & Hc)].
    + exists added. repeat split; [done|].
      intros r Hin Hp. apply elem_of_cons in Hin as [->|Hin]; [done|]. by apply Hex.
    + exists (msg :: added). rewrite <- app_assoc. repeat split.
      * constructor; [|done]. exists raw. split; [apply elem_of_cons; by left|done].
      * intros r Hin Hp. apply elem_of_cons in Hin as [->|Hin].
        -- exists msg. split; [apply elem_of_cons; by left|done].
        -- destruct (Hex r Hin Hp) as (m & Hm & Hcm). exists m.
           split; [apply elem_of_cons; by right|done].
Qed.

Lemma clean_channels pendingMessages channels : ∀ outbox outbox',
  cfold (clean_channel pendingMessages) outbox channels = Return outbox' →
  (∀ channelId messages, outbox !! channelId = Some messages →
     channel_cleaned pendingMessages channelId messages) →
  ∀ channelId messages, outbox' !! channelId = Some messages →
    channel_cleaned pendingMessages channelId messages.
Proof.
  induction channels as [|ch channels IH]; intros outbox outbox' H Hinv.
  - inversion H; subst. exact Hinv.
  - cbn [cfold] in H.
    destruct (clean_channel pendingMessages outbox ch) as [o1|] eqn:E; [|done].
    cbn [cbind] in H. apply (IH _ _ H). clear H IH.
    unfold clean_channel in E.
    destruct (prop pendingMessages ch) as [entry|] eqn:Hentry; [|done].
    cbn [cbind] in E.
    destruct (if isArray entry then cfold clean_message [] (array_items entry)
              else Return []) as [messages|] eqn:Hm; [|done].
    cbn [cbind] in E. inversion E; subst o1.
    intros channelId messages' Hl. destruct (decide (ch = channelId)) as [->|Hne].
    + rewrite lookup_insert_eq in Hl. inversion Hl; subst.
      exists entry. split; [done|]. destruct (isArray entry); [done|].
      by inversion Hm.
    + rewrite lookup_insert_ne in Hl by done. by apply Hinv.
Qed.

(** What [clean] does keep of C10.  Every entry of the outbox [clean]
    returns has status [unsent] and no files.  It comes from a message of the persisted outbox of
    its channel that passed the checks, whatever status that message
    had among the three, and keeps its key and its content; replies are
    kept when [validateReplies] accepts them, as it does every
    well-formed non-empty array, and only a non-empty array is kept.
    And every persisted message of the channel that passes the checks
    has such an entry. *)
Theorem clean_outbox_unsent input output channelId messages :
  clean input = Return output →
  td_outbox output !! channelId = Some messages →
  (∀ msg, msg ∈ messages →
     status msg = unsent
     ∧ files (payload msg) = None
     ∧ ∃ pendingMessages raws raw,
         prop input "outbox" = Return pendingMessages
         ∧ prop pendingMessages channelId = Return (JArray raws)
         ∧ raw ∈ raws
         ∧ (∃ st, prop raw "status" = Return st ∧ is_status st = true)
         ∧ prop raw "idempotencyKey" = Return (JString (idempotencyKey msg))
         ∧ (∃ c, prop raw "content" = Return (JString c)
                 ∧ content (payload msg) = Some c)
         ∧ ∃ r, prop raw "replies" = Return r
             ∧ (well_formed_replies r →
                replies (payload msg) = Some (array_items r))
             ∧ (∀ xs, replies (payload msg) = Some xs → r = JArray xs ∧ xs ≠ []))
  ∧ (∀ pendingMessages raws raw,
       prop input "outbox" = Return pendingMessages →
       prop pendingMessages channelId = Return (JArray raws) →
       raw ∈ raws → passes raw →
       ∃ msg, msg ∈ messages ∧ status msg = unsent
         ∧ files (payload msg) = None
         ∧ prop raw "idempotencyKey" = Return (JString (idempotencyKey msg))
         ∧ ∃ c, prop raw "content" = Return (JString c)
                ∧ content (payload msg) = Some c).
Proof.
  unfold clean. intros H Hl.
  destruct (prop input "drafts") as [messageDrafts|]; [|done]. cbn [cbind] in H.
  match goal with
  | H : cbind ?m _ = _ |- _ => destruct m as [drafts|]; [|done]
  end. cbn [cbind] in H.
  destruct (prop input "outbox") as [pendingMessages|] eqn:Hp; [|done].
  cbn [cbind] in H.
  destruct (typeof_object pendingMessages).
  2:{ cbn [cbind] in H. inversion H; subst. cbn in Hl. by rewrite lookup_empty in Hl. }
  destruct (keys pendingMessages) as [channels|]; [|done]. cbn [cbind] in H.
  destruct (cfold _ _ _) as [outbox|] eqn:Hfold; [|done]. cbn [cbind] in H.
  inversion H; subst. cbn [td_outbox] in Hl.
  pose proof (clean_channels _ _ _ _ Hfold) as Hall.
  specialize (Hall ltac:(intros ? ?; by rewrite lookup_empty) _ _ Hl).
  destruct Hall as (entry & Hentry & Hloop).
  destruct (isArray entry) eqn:Harr.
  2:{ subst messages. split.
      - intros msg Hin. by apply elem_of_nil in Hin.
      - intros pm raws raw [= <-] Hraws. rewrite Hentry in Hraws.
        inversion Hraws; subst. done. }
  destruct entry as [| | | | |raws|]; try done. cbn [array_items] in Hloop.
  apply clean_messages in Hloop as (added & Hadded & Hall & Hex).
  cbn [app] in Hadded. subst added. split.
  - intros msg Hin. rewrite Forall_forall in Hall.
    destruct (Hall _ Hin) as (raw & Hraw & Hc).
    destruct Hc as (_ & Hst & Hkey & Hcontent & (r & valid & Hr & Hv & Hrep) & Hs & Hf).
    split; [done|]. split; [done|].
    exists pendingMessages, raws, raw. repeat split; try done.
    exists r. split; [done|]. split.
    + intros Hwf. apply validateReplies_well_formed in Hwf.
      rewrite Hwf in Hv. inversion Hv; subst. done.
    + intros xs Hxs. rewrite Hxs in Hrep. destruct valid; [|done].
      apply validateReplies_array in Hv as (ys & -> & Hne).
      cbn [array_items] in Hrep. by inversion Hrep.
  - intros pm raws' raw [= <-] Hraws Hin Hpass. rewrite Hentry in Hraws.
    inversion Hraws; subst raws'.
    destruct (Hex raw Hin Hpass) as (msg & Hm & Hc). exists msg.
    destruct Hc as (_ & _ & Hkey & Hcontent & _ & Hs & Hf). done.
Qed.

(** What [find] hands back is the element, and [validateReplies] negates
    it as a value: where the first malformed element of the array is
    falsy, the array passes. *)
Lemma find_first_malformed pre x post :
  Forall well_formed_reply pre →
  malformed_reply x = Return true →
  find malformed_reply (pre ++ x :: post) = Return x.
Proof.
  intros Hpre Hx. induction Hpre as [|y pre (kvs & i & b & -> & Hi & Hb) _ IH].
  - cbn [app find]. by rewrite Hx.
  - cbn [app find]. cbn. rewrite Hi, Hb. cbn. exact IH.
Qed.

Lemma validateReplies_first_malformed pre x post :
  Forall well_formed_reply pre →
  malformed_reply x = Return true →
  validateReplies (JArray (pre ++ x :: post)) = Return (negb (truthy x)).
Proof.
  intros Hpre Hx. unfold validateReplies.
  rewrite (find_first_malformed pre x post Hpre Hx).
  by destruct pre.
Qed.

Lemma falsy_not_well_formed pre x post :
  truthy x = false → ¬ well_formed_replies (JArray (pre ++ x :: post)).
Proof.
  intros Hx (xs & [= <-] & _ & Hall).
  apply Forall_app in Hall as [_ Hall]. apply Forall_cons in Hall as [Hwf _].
  destruct Hwf as (kvs & i & b & -> & _). done.
Qed.

(** The entries of a channel of the cleaned outbox and the persisted
    messages they come from. *)
Lemma clean_outbox_cleaned input output channelId messages pendingMessages raws :
  clean input = Return output →
  td_outbox output !! channelId = Some messages →
  prop input "outbox" = Return pendingMessages →
  prop pendingMessages channelId = Return (JArray raws) →
  Forall (λ msg, ∃ raw, raw ∈ raws ∧ cleaned raw msg) messages
  ∧ ∀ raw, raw ∈ raws → passes raw → ∃ msg, msg ∈ messages ∧ cleaned raw msg.
Proof.
  unfold clean. intros H Hl Hp Hraws.
  destruct (prop input "drafts") as [messageDrafts|]; [|done]. cbn [cbind] in H.
  match goal with
  | H : cbind ?m _ = _ |- _ => destruct m as [drafts|]; [|done]
  end. cbn [cbind] in H. rewrite Hp in H. cbn [cbind] in H.
  destruct (typeof_object pendingMessages).
  2:{ cbn [cbind] in H. inversion H; subst. cbn in Hl. by rewrite lookup_empty in Hl. }
  destruct (keys pendingMessages) as [channels|]; [|done]. cbn [cbind] in H.
  destruct (cfold _ _ _) as [outbox|] eqn:Hfold; [|done]. cbn [cbind] in H.
  inversion H; subst. cbn [td_outbox] in Hl.
  pose proof (clean_channels _ _ _ _ Hfold) as Hall.
  specialize (Hall ltac:(intros ? ?; by rewrite lookup_empty) _ _ Hl).
  destruct Hall as (entry & Hentry & Hloop).
  rewrite Hraws in Hentry. inversion Hentry; subst entry.
  cbn [isArray array_items] in Hloop.
  apply clean_messages in Hloop as (added & Hadded & Hall & Hex).
  cbn [app] in Hadded. by subst added.
Qed.

(** The indices of an array are numerals: none of them is [id]. *)
Lemma pretty_N_go_ne_id x s : s ≠ "id" → pretty_N_go x s ≠ "id".
Proof.
  revert s. induction (N.lt_wf_0 x) as [x _ IH]; intros s Hs.
  assert (x = 0 ∨ 0 < x)%N as [->|Hpos] by lia.
  - by rewrite pretty_N_go_0.
  - rewrite pretty_N_go_step by done. apply IH.
    { by apply N.div_lt. }
    unfold pretty_N_char. by repeat case_match.
Qed.

Lemma assoc_indexed_id {A} (xs : list A) : assoc "id" (indexed xs) = None.
Proof.
  unfold indexed.
  assert (∀ (f : nat → A → string * A),
            (∀ i x, fst (f i x) ≠ "id") → assoc "id" (imap f xs) = None) as Hgen.
  { induction xs as [|x xs IH]; intros f Hf; [done|].
    cbn [imap assoc]. specialize (Hf 0 x) as Hx. destruct (f 0 x) as [k v].
    cbn [fst] in Hx. destruct (String.eqb_spec "id" k) as [<-|_]; [done|].
    apply IH. intros i y. apply Hf. }
  apply Hgen. intros i x. cbn [fst]. unfold pretty, pretty_N.
  case_decide; [done|]. by apply pretty_N_go_ne_id.
Qed.

(** The predicate of [find] answers [false] exactly for the well-formed
    replies. *)
Lemma malformed_reply_false x :
  malformed_reply x = Return false ↔ well_formed_reply x.
Proof.
  split.
  - unfold malformed_reply. destruct x as [| | | | |xs|kvs]; try done.
    + cbn. rewrite assoc_indexed_id. done.
    + cbn. destruct (assoc "id" kvs) as [[| | | |i| |]|] eqn:Hi; try done.
      cbn. destruct (assoc "mention" kvs) as [[| |b| | | |]|] eqn:Hm; try done.
      intros _. by exists kvs, i, b.
  - intros (kvs & i & b & -> & Hi & Hb). cbn. by rewrite Hi, Hb.
Qed.

Lemma malformed_reply_falsy x :
  truthy x = false → x ≠ JNull → malformed_reply x = Return true.
Proof. by destruct x. Qed.

(** What [find] returns: nothing when every element is well-formed,
    and otherwise the first element that is not. *)
Lemma find_malformed_cases xs found :
  find malformed_reply xs = Return found →
  (Forall well_formed_reply xs ∧ found = JUndefined)
  ∨ ∃ pre x post, xs = pre ++ x :: post
      ∧ Forall well_formed_reply pre
      ∧ malformed_reply x = Return true
      ∧ found = x.
Proof.
  induction xs as [|y xs IH]; intros H.
  - inversion H. by left.
  - cbn [find] in H. destruct (malformed_reply y) as [[]|] eqn:Hy; [| |done].
    + cbn [cbind] in H. inversion H; subst found.
      right. by exists [], y, xs.
    + cbn [cbind] in H. apply malformed_reply_false in Hy.
      destruct (IH H) as [[Hall ->]|(pre & x & post & -> & Hpre & Hx & ->)].
      * left. split; [by constructor|done].
      * right. exists (y :: pre), x, post. split; [done|].
        split; [by constructor|done].
Qed.

(** The arrays [validateReplies] accepts: the non-empty ones whose
    elements are well-formed, and the non-empty ones whose first
    element that is not well-formed is falsy (and not [null], whose
    [id] cannot be read). *)
Lemma validateReplies_accepts xs :
  validateReplies (JArray xs) = Return true
  ↔ xs ≠ []
    ∧ (Forall well_formed_reply xs
       ∨ ∃ pre x post, xs = pre ++ x :: post
           ∧ Forall well_formed_reply pre
           ∧ truthy x = false ∧ x ≠ JNull).
Proof.
  split.
  - intros H. split; [by destruct xs|].
    unfold validateReplies in H. destruct (Nat.eqb (length xs) 0); [done|].
    destruct (find malformed_reply xs) as [found|] eqn:Hfind; [|done].
    cbn [cbind] in H. inversion H as [Hfalsy]. apply negb_true_iff in Hfalsy.
    apply find_malformed_cases in Hfind
      as [[Hall _]|(pre & x & post & -> & Hpre & Hx & ->)]; [by left|].
    right. exists pre, x, post. split; [done|]. split; [done|]. split; [done|].
    by intros ->.
  - intros [Hne [Hall|(pre & x & post & -> & Hpre & Hfalsy & Hnull)]].
    + apply validateReplies_well_formed. by exists xs.
    + rewrite validateReplies_first_malformed;
        [by rewrite Hfalsy|done|by apply malformed_reply_falsy].
Qed.

(** C10. The replies an entry of the cleaned outbox keeps need not be
    well-formed.  Every entry has status [unsent], no files and the key
    of a persisted message that passed the checks, and it keeps replies
    exactly when the persisted replies are a non-empty array whose
    elements are well-formed, or whose first element that is not is
    falsy ([0], [""], [false], [undefined]).  So a persisted message
    that passes the checks and whose replies are of the second kind has
    an entry that keeps them as they are, malformed elements
    included. *)
Theorem clean_keeps_malformed_replies
    input output channelId messages pendingMessages raws :
  clean input = Return output →
  td_outbox output !! channelId = Some messages →
  prop input "outbox" = Return pendingMessages →
  prop pendingMessages channelId = Return (JArray raws) →
  (∀ msg, msg ∈ messages →
     ∃ raw, raw ∈ raws ∧ passes raw
       ∧ status msg = unsent
       ∧ files (payload msg) = None
       ∧ prop raw "idempotencyKey" = Return (JString (idempotencyKey msg))
       ∧ ∀ xs, replies (payload msg) = Some xs ↔
           (prop raw "replies" = Return (JArray xs)
            ∧ xs ≠ []
            ∧ (Forall well_formed_reply xs
               ∨ ∃ pre x post, xs = pre ++ x :: post
                   ∧ Forall well_formed_reply pre
                   ∧ truthy x = false ∧ x ≠ JNull)))
  ∧ (∀ raw pre x post,
       raw ∈ raws →
       passes raw →
       prop raw "replies" = Return (JArray (pre ++ x :: post)) →
       Forall well_formed_reply pre →
       truthy x = false →
       x ≠ JNull →
       ¬ well_formed_replies (JArray (pre ++ x :: post))
       ∧ ∃ msg, msg ∈ messages
           ∧ status msg = unsent
           ∧ files (payload msg) = None
           ∧ prop raw "idempotencyKey" = Return (JString (idempotencyKey msg))
           ∧ replies (payload msg) = Some (pre ++ x :: post)).
Proof.
  intros H Hl Hp Hraws.
  destruct (clean_outbox_cleaned _ _ _ _ _ _ H Hl Hp Hraws) as [Hall Hex].
  split.
  - intros msg Hin. rewrite Forall_forall in Hall.
    destruct (Hall msg Hin) as (raw & Hraw & Hc). exists raw.
    pose proof (cleaned_passes _ _ Hc) as Hpass.
    destruct Hc as (_ & _ & Hkey & _ & (r & valid & Hr & Hv & Hkept) & Hs & Hf).
    split; [done|]. split; [done|]. split; [done|]. split; [done|].
    split; [done|]. intros xs. rewrite Hkept, Hr. split.
    + intros Hxs. destruct valid; [|done].
      apply validateReplies_array in Hv as Harr. destruct Harr as (ys & -> & _).
      cbn [array_items] in Hxs. inversion Hxs; subst ys.
      split; [done|]. by apply validateReplies_accepts.
    + intros ([= ->] & Hacc). apply validateReplies_accepts in Hacc.
      rewrite Hacc in Hv. by inversion Hv.
  - intros raw pre x post Hin Hpass Hrep Hpre Hfalsy Hnull.
    split; [by apply falsy_not_well_formed|].
    destruct (Hex raw Hin Hpass) as (msg & Hm & Hc). exists msg.
    destruct Hc as (_ & _ & Hkey & _ & (r & valid & Hr & Hv & Hkept) & Hs & Hf).
    split; [done|]. split; [done|]. split; [done|]. split; [done|].
    rewrite Hrep in Hr. inversion Hr; subst r.
    rewrite (validateReplies_first_malformed pre x post Hpre
               (malformed_reply_falsy x Hfalsy Hnull)), Hfalsy in Hv.
    inversion Hv; subst valid. exact Hkept.
Qed.

End CleanFacts.

(** ** More on drafts *)

Section MoreDraftFacts.

Variable CONFIGURATION : Configuration.
Variable world : World.

Lemma drop_drop_files {A} (n m : nat) (l : option (list A)) :
  drop n <$> (drop m <$> l) = drop (m + n) <$> l.
Proof. destruct l as [l|]; [|done]. cbn. by rewrite drop_drop. Qed.

(** X1. Files beyond the limit roll over: after [n] pops the draft keeps
    the files from index [n * MAX_ATTACHMENTS] on, and the next pop
    returns the [MAX_ATTACHMENTS] files that start there, so successive
    pops hand out the files in order, in chunks. *)
Theorem popDraft_rolls_over n channelId s :
  let limit := MAX_ATTACHMENTS CONFIGURATION in
  let before := files (getDraft channelId s) in
  let s' := popped_times CONFIGURATION n channelId s in
  files (getDraft channelId s') = drop (n * limit) <$> before
  ∧ files (fst (popDraft CONFIGURATION channelId s'))
    = (λ l, take limit (drop (n * limit) l)) <$> before.
Proof.
  intros limit before s'.
  assert (files (getDraft channelId s') = drop (n * limit) <$> before) as H.
  { subst s'. induction n as [|n IH].
    - cbn. subst before. by destruct (files (getDraft channelId s)).
    - unfold popped_times in *. rewrite Nat.iter_succ.
      destruct (popDraft_result CONFIGURATION channelId
                  (Nat.iter n (λ s, snd (popDraft CONFIGURATION channelId s)) s))
        as [_ ->]. cbn [files]. rewrite IH, drop_drop_files. fold limit.
      by replace (n * limit + limit) with (S n * limit) by lia. }
  split; [done|].
  destruct (popDraft_result CONFIGURATION channelId s') as [-> _]. cbn [files].
  rewrite H. by destruct before.
Qed.

(** X2. After [clearDraft], and after [popDraft], [hasDraft] answers
    [false] for the channel: both leave a draft whose content is the empty
    string, so the check neither throws nor reports a draft. *)
Theorem hasDraft_false_after_reset channelId s :
  fst (hasDraft channelId (clearDraft channelId s)) = Return (JBool false)
  ∧ fst (hasDraft channelId (snd (popDraft CONFIGURATION channelId s)))
    = Return (JBool false).
Proof.
  split.
  - unfold hasDraft, bind, gets, clearDraft, setDraft_data, set_drafts.
    cbn [drafts with_drafts]. by rewrite lookup_insert_eq.
  - unfold hasDraft, bind, gets, popDraft. cbn [snd]. rewrite setDraft_Data.
    unfold set_drafts. cbn [drafts with_drafts]. by rewrite lookup_insert_eq.
Qed.

Lemma release_events (l : list string) s :
  events (foldl (λ s file, with_fileCache (delete file (fileCache s)) s) s l)
  = events s.
Proof. revert s. induction l as [|f l IH]; intros s; simpl; [done|]. by rewrite IH. Qed.

Lemma release_outbox (l : list string) s :
  outbox (foldl (λ s file, with_fileCache (delete file (fileCache s)) s) s l)
  = outbox s.
Proof. revert s. induction l as [|f l IH]; intros s; simpl; [done|]. by rewrite IH. Qed.

(** X3. [clearDraft] drops the cache entries of the draft's files and no
    other, and unlike [removeFile] it never calls [URL.revokeObjectURL]:
    the trace of calls is unchanged, also when a dropped entry holds a
    preview.  Other channels' drafts and the outbox are untouched. *)
Theorem clearDraft_frame channelId s :
  (∀ fileId, fileId ∈ default [] (files (getDraft channelId s)) →
     getFile fileId (clearDraft channelId s) = None)
  ∧ (∀ fileId, fileId ∉ default [] (files (getDraft channelId s)) →
       getFile fileId (clearDraft channelId s) = getFile fileId s)
  ∧ events (clearDraft channelId s) = events s
  ∧ outbox (clearDraft channelId s) = outbox s
  ∧ (∀ other, other ≠ channelId →
       drafts (clearDraft channelId s) !! other = drafts s !! other).
Proof.
  unfold clearDraft, setDraft_data, set_drafts, getFile.
  cbn [events outbox fileCache drafts with_drafts].
  rewrite release_events, release_outbox, release_drafts.
  split; [|split; [|split; [done|split; [done|]]]].
  - intros f Hf. rewrite release_lookup. by rewrite bool_decide_eq_true_2.
  - intros f Hf. rewrite release_lookup. by rewrite bool_decide_eq_false_2.
  - intros other Hne. by rewrite lookup_insert_ne.
Qed.

(** *** Replies *)

(** The replies [addReply] leaves, with the mention it computes. *)
Lemma addReply_replies message selfId s :
  let channelId := message_channelId message in
  let rs := default [] (replies (getDraft channelId s)) in
  let s0 := if setNodeReplacement s then emit EvFocus s else s in
  let added :=
    {| id := message_id message;
       mention := if bool_decide (message_authorId message ≠ Some selfId)
                  then w_mentionReply world (events s0)
                  else Some false |} in
  getDraft channelId (addReply CONFIGURATION world message selfId s)
  = if has_reply message rs || Nat.leb (MAX_REPLIES CONFIGURATION) (length rs)
    then getDraft channelId s
    else {| content := content (getDraft channelId s);
            replies := Some (rs ++ [added]);
            files := files (getDraft channelId s) |}.
Proof.
  intros channelId rs s0 added. unfold addReply. fold s0.
  assert (drafts s0 = drafts s) as Hd by (subst s0; by destruct (setNodeReplacement s)).
  assert (∀ c, getDraft c s0 = getDraft c s) as Hg
    by (intros c; unfold getDraft; by rewrite Hd).
  rewrite Hg. fold channelId rs. fold (has_reply message rs).
  destruct (has_reply message rs); [apply Hg|].
  cbn [orb]. destruct (Nat.leb _ _); [apply Hg|].
  rewrite setDraft_Updater, getDraft_set_drafts, Hg. reflexivity.
Qed.

Lemma has_reply_ids message rs :
  has_reply message rs = bool_decide (message_id message ∈ reply_ids rs).
Proof.
  unfold has_reply, reply_ids. induction rs as [|r rs IH].
  - cbn. symmetry. apply bool_decide_eq_false_2. apply not_elem_of_nil.
  - cbn [existsb fmap list_fmap]. rewrite IH.
    destruct (String.eqb_spec (id r) (message_id message)) as [Heq|Hne]; cbn [orb].
    + symmetry. apply bool_decide_eq_true_2. apply elem_of_cons. by left.
    + apply bool_decide_ext. rewrite elem_of_cons. split; [by right|].
      by intros [Heq|Hin].
Qed.

(** X4. [addReply] keeps the replies of a draft in bounds: a list that
    holds at most [MAX_REPLIES] replies still does, a list without two
    replies to one message still has none, the replies that were there
    stay in front in their order, and a reply to one's own message never
    mentions. *)
Theorem addReply_keeps_replies_sound message selfId s :
  let channelId := message_channelId message in
  let rs := default [] (replies (getDraft channelId s)) in
  let rs' :=
    default [] (replies (getDraft channelId
                           (addReply CONFIGURATION world message selfId s))) in
  (length rs ≤ MAX_REPLIES CONFIGURATION → length rs' ≤ MAX_REPLIES CONFIGURATION)
  ∧ (NoDup (reply_ids rs) → NoDup (reply_ids rs'))
  ∧ (rs' = rs
     ∨ ∃ added, rs' = rs ++ [added] ∧ id added = message_id message
         ∧ (message_authorId message = Some selfId → mention added = Some false)).
Proof.
  intros channelId rs rs'.
  pose proof (addReply_replies message selfId s) as H. cbn zeta in H.
  fold channelId rs in H. subst rs'. rewrite H. clear H.
  rewrite has_reply_ids.
  case_bool_decide as Hin; cbn [orb]; [by repeat split; [..|left]|].
  destruct (Nat.leb_spec (MAX_REPLIES CONFIGURATION) (length rs)) as [Hfull|Hroom];
    [by repeat split; [..|left]|].
  cbn [replies]. change (default [] (Some ?l)) with l. repeat split.
  - intros _. rewrite length_app. cbn. lia.
  - intros Hnd. unfold reply_ids. rewrite fmap_app. cbn [fmap list_fmap id].
    apply NoDup_app. repeat split; [done| |apply NoDup_singleton].
    intros x Hx Hx'. apply list_elem_of_singleton in Hx'. by subst x.
  - right. eexists. split; [reflexivity|]. split; [done|].
    intros Hself. cbn [mention]. by rewrite bool_decide_eq_false_2 by (by intros []).
Qed.

Lemma getDraft_removeReply channelId messageId s :
  getDraft channelId (removeReply channelId messageId s)
  = {| content := content (getDraft channelId s);
       replies :=
         (filter (λ reply, id reply ≠ messageId) <$> replies (getDraft channelId s));
       files := files (getDraft channelId s) |}.
Proof. unfold removeReply. by rewrite setDraft_Updater, getDraft_set_drafts. Qed.

Lemma filter_other_ids messageId (rs : list ReplyIntent) :
  messageId ∉ reply_ids rs →
  filter (λ reply, id reply ≠ messageId) rs = rs.
Proof.
  unfold reply_ids. induction rs as [|r rs IH]; [done|].
  cbn [fmap list_fmap]. rewrite not_elem_of_cons. intros [Hne Hin].
  rewrite filter_cons, decide_True by done. by rewrite IH.
Qed.

(** X5. [removeReply] leaves no reply to the message, keeps the other
    replies in their order and keeps content and files; and it undoes
    [addReply]: adding a reply to a message the draft did not answer yet
    and removing it again gives back the replies the draft had. *)
Theorem removeReply_undoes_addReply message selfId s :
  let channelId := message_channelId message in
  let rs := default [] (replies (getDraft channelId s)) in
  let s1 := addReply CONFIGURATION world message selfId s in
  let s2 := removeReply channelId (message_id message) s1 in
  (message_id message ∉ reply_ids (default [] (replies (getDraft channelId s2))))
  ∧ content (getDraft channelId s2) = content (getDraft channelId s)
  ∧ files (getDraft channelId s2) = files (getDraft channelId s)
  ∧ (message_id message ∉ reply_ids rs →
     default [] (replies (getDraft channelId s2)) = rs).
Proof.
  intros channelId rs s1 s2. subst s2. rewrite getDraft_removeReply.
  cbn [content replies files]. split.
  { destruct (replies (getDraft channelId s1)) as [l|]; cbn; [|apply not_elem_of_nil].
    unfold reply_ids. intros Hin. apply list_elem_of_fmap in Hin as (r & Hr & Hin).
    apply list_elem_of_filter in Hin as [Hne _]. done. }
  pose proof (addReply_replies message selfId s) as H. cbn zeta in H.
  fold channelId rs s1 in H. rewrite H. clear H.
  rewrite has_reply_ids. repeat split.
  - by destruct (_ || _).
  - by destruct (_ || _).
  - intros Hnot. rewrite bool_decide_eq_false_2 by done. cbn [orb].
    destruct (Nat.leb _ _).
    + subst rs. destruct (replies (getDraft channelId s)) as [l|]; [|done].
      cbn. by apply filter_other_ids.
    + cbn [replies fmap option_fmap option_map]. change (default [] (Some ?l)) with l.
      rewrite filter_app, filter_other_ids by done.
      rewrite filter_cons, decide_False, filter_nil by (by intros []).
      apply app_nil_r.
Qed.

Lemma getDraft_toggleReplyMention channelId messageId s :
  getDraft channelId (snd (toggleReplyMention channelId messageId s))
  = {| content := content (getDraft channelId s);
       replies :=
         ((λ rs : list ReplyIntent, toggled messageId <$> rs)
          <$> replies (getDraft channelId s));
       files := files (getDraft channelId s) |}.
Proof.
  unfold toggleReplyMention. cbn [snd].
  by rewrite setDraft_Updater, getDraft_set_drafts.
Qed.

Lemma toggled_twice messageId (r : ReplyIntent) :
  is_Some (mention r) → toggled messageId (toggled messageId r) = r.
Proof.
  intros [b Hb]. unfold toggled. destruct (String.eqb (id r) messageId) eqn:E.
  - cbn [id mention]. rewrite E. destruct r as [i m]. cbn in *. subst m.
    cbn. by rewrite negb_involutive.
  - by rewrite E.
Qed.

Lemma mention_writes_toggled messageId rs :
  mention_writes messageId (toggled messageId <$> rs)
  = negb <$> mention_writes messageId rs.
Proof.
  unfold mention_writes. induction rs as [|r rs IH]; [done|].
  cbn [fmap list_fmap omap list_omap]. rewrite IH. unfold toggled at 1 2.
  destruct (String.eqb (id r) messageId) eqn:E.
  - cbn [id mention]. by rewrite E.
  - by rewrite E.
Qed.

Lemma mention_writes_filter messageId rs :
  mention_writes messageId rs
  = (λ r, negb (default false (mention r)))
    <$> filter (λ r, id r = messageId) rs.
Proof.
  unfold mention_writes. induction rs as [|r rs IH]; [done|].
  cbn [omap list_omap]. rewrite filter_cons, IH.
  destruct (String.eqb_spec (id r) messageId) as [Heq|Hne].
  - by rewrite decide_True.
  - by rewrite decide_False.
Qed.

Lemma mention_writes_new messageId rs :
  Some <$> mention_writes messageId rs
  = mention <$> filter (λ r, id r = messageId) (toggled messageId <$> rs).
Proof.
  unfold mention_writes. induction rs as [|r rs IH]; [done|].
  cbn [omap list_omap fmap list_fmap]. rewrite filter_cons.
  assert (id (toggled messageId r) = id r) as Hid
    by (unfold toggled; by destruct (String.eqb _ _)).
  destruct (String.eqb (id r) messageId) eqn:E.
  - apply String.eqb_eq in E as Heq. rewrite decide_True by congruence.
    cbn [fmap list_fmap]. unfold toggled at 1. rewrite E. cbn [mention].
    f_equal. exact IH.
  - apply String.eqb_neq in E as Hne. rewrite decide_False by congruence.
    exact IH.
Qed.

(** X6. [toggleReplyMention] flips the mention of the replies to the
    message and of no other, keeps ids, order, content and files, and
    writes each new value to the remembered preference: one write for
    each reply to the message, in the order of the replies, of the
    negated mention, which is the mention the reply then has.  Toggling
    twice gives back the replies whose mention is a boolean, and the
    second toggle writes the opposite values of the first. *)
Theorem toggleReplyMention_flips channelId messageId s :
  let rs := default [] (replies (getDraft channelId s)) in
  let once := toggleReplyMention channelId messageId s in
  let twice := toggleReplyMention channelId messageId (snd once) in
  let rs1 := default [] (replies (getDraft channelId (snd once))) in
  fst once
  = ((λ r, negb (default false (mention r)))
     <$> filter (λ r, id r = messageId) rs)
  ∧ (Some <$> fst once) = (mention <$> filter (λ r, id r = messageId) rs1)
  ∧ reply_ids rs1 = reply_ids rs
  ∧ (∀ i r, rs !! i = Some r →
       rs1 !! i
       = Some (if bool_decide (id r = messageId)
               then {| id := id r; mention := Some (negb (default false (mention r))) |}
               else r))
  ∧ content (getDraft channelId (snd once)) = content (getDraft channelId s)
  ∧ files (getDraft channelId (snd once)) = files (getDraft channelId s)
  ∧ fst twice = negb <$> fst once
  ∧ (Forall (λ r, is_Some (mention r)) rs →
     default [] (replies (getDraft channelId (snd twice))) = rs).
Proof.
  intros rs once twice rs1. subst rs1 twice once.
  rewrite !getDraft_toggleReplyMention. cbn [content replies files].
  assert (default [] ((λ l : list ReplyIntent, toggled messageId <$> l)
                      <$> replies (getDraft channelId s))
          = toggled messageId <$> rs) as E.
  { subst rs. by destruct (replies (getDraft channelId s)). }
  rewrite E. repeat split.
  - apply mention_writes_filter.
  - apply mention_writes_new.
  - unfold reply_ids. rewrite <- list_fmap_compose. apply list_fmap_ext.
    intros i r _. cbn. unfold toggled. by destruct (String.eqb _ _).
  - intros i r Hr. rewrite list_lookup_fmap, Hr. cbn. f_equal. unfold toggled.
    destruct (String.eqb_spec (id r) messageId).
    + by rewrite bool_decide_eq_true_2.
    + by rewrite bool_decide_eq_false_2.
  - unfold toggleReplyMention. cbn [fst snd].
    rewrite setDraft_Updater, getDraft_set_drafts. cbn [merge_draft merge_field replies o_replies].
    fold rs. rewrite E. apply mention_writes_toggled.
  - intros Hall.
    assert (default [] ((λ l : list ReplyIntent, toggled messageId <$> l)
              <$> ((λ l : list ReplyIntent, toggled messageId <$> l)
                   <$> replies (getDraft channelId s)))
            = toggled messageId <$> (toggled messageId <$> rs)) as E2.
    { subst rs. by destruct (replies (getDraft channelId s)). }
    rewrite E2, <- list_fmap_compose.
    rewrite <- (list_fmap_id rs) at 2. apply Forall_fmap_ext_1.
    eapply Forall_impl; [exact Hall|]. intros r Hr. by apply toggled_twice.
Qed.

(** *** [popFromDraft] *)

Lemma take_all_but_last {A} (x : A) (l : list A) :
  length (take (length (x :: l) - 1) (x :: l)) = length l.
Proof. rewrite length_take. cbn. lia. Qed.

(** X7. [popFromDraft] answers what [hasAdditionalElements] answers.  When
    it answers [true] the draft holds one element less: the last reply
    if there is a reply, with the files untouched, and only otherwise
    the last file.  When it answers [false] nothing changes.  It never
    touches the attachment cache: a file it takes off the draft keeps its
    cache entry. *)
Theorem popFromDraft_takes_one channelId s :
  let r := popFromDraft channelId s in
  let d := getDraft channelId s in
  let d' := getDraft channelId (snd r) in
  fst r = hasAdditionalElements channelId s
  ∧ additional_elements channelId (snd r) + (if fst r then 1 else 0)
    = additional_elements channelId s
  ∧ (fst r = false → snd r = s)
  ∧ (0 < length (default [] (replies d)) →
     files d' = files d
     ∧ default [] (replies d')
       = take (length (default [] (replies d)) - 1) (default [] (replies d)))
  ∧ (length (default [] (replies d)) = 0 → 0 < length (default [] (files d)) →
     default [] (files d')
     = take (length (default [] (files d)) - 1) (default [] (files d)))
  ∧ content d' = content d
  ∧ fileCache (snd r) = fileCache s
  ∧ outbox (snd r) = outbox s
  ∧ events (snd r) = events s.
Proof.
  intros r d d'. subst r d'. unfold popFromDraft, hasAdditionalElements,
    additional_elements. fold d.
  destruct (replies d) as [[|x rs]|] eqn:Hr;
    [destruct (files d) as [[|f fs]|] eqn:Hf| |destruct (files d) as [[|f fs]|] eqn:Hf];
    cbn [fst snd]; rewrite ?setDraft_Data, ?getDraft_set_drafts; fold d;
    cbn [merge_draft merge_field content replies files o_content o_replies o_files
         fileCache outbox events set_drafts with_drafts];
    rewrite ?Hr, ?Hf; cbn [from_option Datatypes.id];
    rewrite ?take_all_but_last; cbn [length];
    repeat split; try done; try lia; intros; cbn [length] in *; lia.
Qed.

(** *** Attachments *)

Lemma getDraft_removeFile channelId fileId s :
  getDraft channelId (removeFile channelId fileId s)
  = {| content := content (getDraft channelId s);
       replies := replies (getDraft channelId s);
       files := (filter (λ entry, entry ≠ fileId) <$> files (getDraft channelId s)) |}.
Proof.
  unfold removeFile. rewrite setDraft_Updater, getDraft_set_drafts.
  assert (∀ c, getDraft c (deleteFile fileId s) = getDraft c s) as Hg.
  { intros c. unfold getDraft, deleteFile. by repeat case_match. }
  by rewrite Hg.
Qed.

Lemma fileCache_removeFile channelId fileId s :
  fileCache (removeFile channelId fileId s) = delete fileId (fileCache s).
Proof.
  unfold removeFile, deleteFile. rewrite setDraft_Updater. unfold set_drafts.
  cbn [fileCache with_drafts with_fileCache]. by repeat case_match.
Qed.

(** X8. [removeFile] takes the file out of the cache and out of the
    draft's files, keeps the other files in their order and the other
    cache entries, content and replies, and releases the preview: it
    calls [URL.revokeObjectURL] exactly when the entry holds a non-empty
    preview reference, and makes no other call. *)
Theorem removeFile_releases channelId fileId s :
  let s' := removeFile channelId fileId s in
  getFile fileId s' = None
  ∧ (∀ other, other ≠ fileId → getFile other s' = getFile other s)
  ∧ files (getDraft channelId s')
    = (filter (λ entry, entry ≠ fileId) <$> files (getDraft channelId s))
  ∧ (fileId ∉ default [] (files (getDraft channelId s')))
  ∧ content (getDraft channelId s') = content (getDraft channelId s)
  ∧ replies (getDraft channelId s') = replies (getDraft channelId s)
  ∧ outbox s' = outbox s
  ∧ events s'
    = match getFile fileId s ≫= dataUri with
      | Some uri =>
          if Js.string_truthy uri then EvRevokeObjectURL uri :: events s
          else events s
      | None => events s
      end.
Proof.
  intros s'. subst s'. unfold getFile.
  rewrite fileCache_removeFile, getDraft_removeFile. cbn [content replies files].
  repeat split.
  - apply lookup_delete_eq.
  - intros other Hne. by apply lookup_delete_ne.
  - destruct (files (getDraft channelId s)) as [l|]; cbn; [|apply not_elem_of_nil].
    intros Hin. by apply list_elem_of_filter in Hin as [Hne _].
  - unfold removeFile, deleteFile. rewrite setDraft_Updater. unfold set_drafts.
    cbn [outbox with_drafts with_fileCache]. by repeat case_match.
  - unfold removeFile, deleteFile. rewrite setDraft_Updater. unfold set_drafts.
    cbn [events with_drafts with_fileCache].
    destruct (fileCache s !! fileId) as [[? [uri|] ? ? ?]|]; cbn; [|done|done].
    by destruct (Js.string_truthy uri).
Qed.

Lemma filter_other_files fileId (l : list string) :
  fileId ∉ l → filter (λ entry, entry ≠ fileId) l = l.
Proof.
  induction l as [|x l IH]; [done|].
  rewrite not_elem_of_cons. intros [Hne Hin].
  rewrite filter_cons, decide_True by done. by rewrite IH.
Qed.

Section AddFile.

Variable browser : Browser.

Lemma getDraft_addFile channelId f s :
  getDraft channelId (addFile browser channelId f s)
  = {| content := content (getDraft channelId s);
       replies := replies (getDraft channelId s);
       files := Some (default [] (files (getDraft channelId s))
                      ++ [insecureUniqueId browser]) |}.
Proof.
  unfold addFile. rewrite setDraft_Updater, getDraft_set_drafts.
  match goal with
  | |- context [getDraft channelId ?x] =>
      assert (getDraft channelId x = getDraft channelId s) as ->
        by (unfold getDraft; by repeat case_match)
  end.
  reflexivity.
Qed.

(** The cache [addFile] leaves: the old one with the new entry. *)
Lemma fileCache_addFile channelId f s :
  ∃ entry,
    fileCache (addFile browser channelId f s)
    = <[insecureUniqueId browser := entry]> (fileCache s)
    ∧ file entry = f ∧ autumnId entry = None ∧ uploadProgress entry = 0%Q
    ∧ dataUri entry
      = (if bool_decide (file_type f ∈ ALLOWED_IMAGE_TYPES)
         then Some (createObjectURL browser f) else None)
    ∧ (is_Some (dimensions entry) → file_type f ∈ ALLOWED_IMAGE_TYPES).
Proof.
  unfold addFile. rewrite setDraft_Updater. unfold set_drafts.
  cbn [fileCache with_drafts].
  case_bool_decide as Hty.
  - destruct (Js.string_truthy (createObjectURL browser f));
      [destruct (decodeImage browser (createObjectURL browser f)) as [size|]|];
      cbn [fileCache with_fileCache]; rewrite ?insert_insert_eq;
      eexists; (split; [reflexivity|]); cbn; repeat split; done.
  - cbn [fileCache with_fileCache]. eexists. split; [reflexivity|].
    cbn. repeat split; done.
Qed.

(** X9. [addFile] appends the drawn id to the draft's files, whatever
    their number, and caches the file under it: not uploaded, progress
    [0], with a preview reference exactly for the four image content
    types, and with a size only if there is a preview.  Other cache
    entries, content, replies, outbox and the trace of calls are
    untouched. *)
Theorem addFile_appends channelId f s :
  let fileId := insecureUniqueId browser in
  let s' := addFile browser channelId f s in
  default [] (files (getDraft channelId s'))
  = default [] (files (getDraft channelId s)) ++ [fileId]
  ∧ (∃ entry, getFile fileId s' = Some entry
       ∧ file entry = f ∧ autumnId entry = None ∧ uploadProgress entry = 0%Q
       ∧ (is_Some (dataUri entry) ↔ file_type f ∈ ALLOWED_IMAGE_TYPES)
       ∧ (is_Some (dimensions entry) → is_Some (dataUri entry)))
  ∧ (∀ other, other ≠ fileId → getFile other s' = getFile other s)
  ∧ content (getDraft channelId s') = content (getDraft channelId s)
  ∧ replies (getDraft channelId s') = replies (getDraft channelId s)
  ∧ outbox s' = outbox s
  ∧ events s' = events s.
Proof.
  intros fileId s'. subst s'. rewrite getDraft_addFile. cbn [content replies files].
  destruct (fileCache_addFile channelId f s) as (entry & Hc & Hf & Ha & Hp & Hu & Hd).
  unfold getFile. rewrite Hc. repeat split; try done.
  - exists entry. rewrite lookup_insert_eq. repeat split; try done.
    + rewrite Hu. case_bool_decide; [done|]. by intros [? [=]].
    + intros Hty. rewrite Hu. rewrite bool_decide_eq_true_2 by done. eauto.
    + intros Hdim. rewrite Hu. rewrite bool_decide_eq_true_2 by auto. eauto.
  - intros other Hne. by rewrite lookup_insert_ne.
  - unfold addFile. rewrite setDraft_Updater. unfold set_drafts.
    cbn [outbox with_drafts]. by repeat case_match.
  - unfold addFile. rewrite setDraft_Updater. unfold set_drafts.
    cbn [events with_drafts]. by repeat case_match.
Qed.

(** X10. [removeFile] undoes [addFile]: when the drawn id is new to the
    cache and to the draft, adding a file and removing it again gives
    back the cache and the draft's files. *)
Theorem removeFile_undoes_addFile channelId f s :
  let fileId := insecureUniqueId browser in
  let s' := removeFile channelId fileId (addFile browser channelId f s) in
  getFile fileId s = None →
  fileId ∉ default [] (files (getDraft channelId s)) →
  fileCache s' = fileCache s
  ∧ default [] (files (getDraft channelId s'))
    = default [] (files (getDraft channelId s))
  ∧ content (getDraft channelId s') = content (getDraft channelId s)
  ∧ replies (getDraft channelId s') = replies (getDraft channelId s).
Proof.
  intros fileId s' Hnew Hnot. subst s'.
  rewrite fileCache_removeFile, getDraft_removeFile, getDraft_addFile.
  cbn [content replies files].
  destruct (fileCache_addFile channelId f s) as (entry & -> & _).
  repeat split.
  - by apply delete_insert_id.
  - cbn [fmap option_fmap option_map]. change (default [] (Some ?l)) with l.
    rewrite filter_app, filter_cons, decide_False, filter_nil by (by intros []).
    rewrite app_nil_r. by apply filter_other_files.
Qed.

End AddFile.

(** *** Typing *)

Lemma length_append (x y : string) :
  String.length (x +:+ y) = String.length x + String.length y.
Proof. induction x as [|c x IH]; simpl; [done|]. by rewrite IH. Qed.

Lemma append_assoc (x y z : string) : (x +:+ y) +:+ z = x +:+ y +:+ z.
Proof.
  induction x as [|c x IH]; [done|].
  change (String c ((x +:+ y) +:+ z) = String c (x +:+ y +:+ z)). by rewrite IH.
Qed.

Lemma substring_prefix_append (x y : string) :
  String.substring 0 (String.length x) (x +:+ y) = x.
Proof.
  induction x as [|c x IH]; [by destruct y|].
  change (String c (String.substring 0 (String.length x) (x +:+ y)) = String c x).
  by rewrite IH.
Qed.

Lemma substring_whole (y : string) :
  String.substring 0 (String.length y) y = y.
Proof.
  induction y as [|c y IH]; [done|].
  change (String c (String.substring 0 (String.length y) y) = String c y).
  by rewrite IH.
Qed.

Lemma substring_suffix_append (x y : string) :
  String.substring (String.length x) (String.length y) (x +:+ y) = y.
Proof.
  induction x as [|c x IH]; [apply substring_whole|exact IH].
Qed.

Lemma slice_prefix_append (x y : string) :
  Js.slice (x +:+ y) 0 (Js.str_length x) = x.
Proof.
  unfold Js.slice, Js.str_length, Js.clamp_index. cbn zeta.
  rewrite ?length_append.
  destruct (Z.ltb_spec (Z.of_nat (String.length x)) 0) as [?|_]; [lia|].
  cbn [Z.ltb Z.compare]. rewrite Z.min_l, Z.min_l by lia.
  rewrite Z.sub_0_r, Nat2Z.id. apply substring_prefix_append.
Qed.

Lemma slice_suffix_append (x y : string) :
  Js.slice (x +:+ y) (Js.str_length x) (Js.str_length (x +:+ y)) = y.
Proof.
  unfold Js.slice, Js.str_length, Js.clamp_index. cbn zeta.
  rewrite ?length_append.
  destruct (Z.ltb_spec (Z.of_nat (String.length x)) 0) as [?|_]; [lia|].
  destruct (Z.ltb_spec (Z.of_nat (String.length x + String.length y)) 0) as [?|_]; [lia|].
  rewrite Z.min_l, Z.min_l by lia.
  replace (Z.to_nat (Z.of_nat (String.length x + String.length y)
                     - Z.of_nat (String.length x))) with (String.length y) by lia.
  rewrite Nat2Z.id. apply substring_suffix_append.
Qed.

(** X11. Typing composes: inserting a text and then another one is
    inserting the two at once.  The cursor [insertText] leaves is where
    the next insertion goes, whatever the selection was, also one that
    lay outside the content. *)
Theorem insertText_composes a b s :
  insertText b (insertText a s) = insertText (a +:+ b) s.
Proof.
  unfold insertText at 2 3. destruct (textSelection s) as [sel|] eqn:Hsel.
  2:{ unfold insertText. by rewrite Hsel. }
  set (c := default "" (content (getDraft (channelId sel) s))).
  set (pre := Js.slice c 0 (start sel)).
  set (post := Js.slice c (end_ sel) (Js.str_length c)).
  rewrite !setDraft_Updater. unfold insertText.
  cbn [textSelection with_textSelection channelId start end_].
  assert (∀ t x, getDraft (channelId sel) (with_textSelection t x)
                 = getDraft (channelId sel) x) as Hg by done.
  rewrite Hg, getDraft_set_drafts.
  cbn [merge_draft merge_field content o_content spread].
  change (default "" (Some ?x)) with x.
  replace (Js.str_length pre + Js.str_length a)%Z
    with (Js.str_length (pre +:+ a))
    by (unfold Js.str_length; rewrite length_append; lia).
  rewrite <- (append_assoc pre a post).
  rewrite slice_prefix_append, slice_suffix_append.
  rewrite setDraft_Updater, Hg, getDraft_set_drafts.
  unfold set_drafts, with_textSelection, with_drafts.
  cbn [drafts outbox fileCache textSelection setNodeReplacement events].
  rewrite insert_insert_eq. unfold getDraft at 1.
  rewrite lookup_insert_eq. cbn [from_option Datatypes.id].
  f_equal.
  - f_equal. unfold merge_draft.
    cbn [content replies files o_content o_replies o_files spread merge_field].
    rewrite !merge_spread_field. f_equal. f_equal.
    by rewrite !append_assoc.
  - do 2 f_equal; unfold Js.str_length; rewrite !length_append; lia.
Qed.

End MoreDraftFacts.

(** ** More on the send pipeline *)

Section MoreSendFacts.

Variable CONFIGURATION : Configuration.
Variable world : World.

Lemma removeFile_frame channel fileId s :
  outbox (removeFile channel fileId s) = outbox s
  ∧ textSelection (removeFile channel fileId s) = textSelection s
  ∧ ∀ other, other ≠ channel →
      drafts (removeFile channel fileId s) !! other = drafts s !! other.
Proof.
  unfold removeFile, deleteFile. rewrite setDraft_Updater. unfold set_drafts.
  cbn [outbox textSelection drafts with_drafts with_fileCache].
  repeat split; try (by repeat case_match).
  intros other Hne. rewrite lookup_insert_ne by done. by repeat case_match.
Qed.

(** What the loop [for (const file of files) this.removeFile(..)] leaves:
    none of the files in the cache or in the channel's draft, and the
    other channels' drafts as they were. *)
Lemma removeFiles_released channel ids : ∀ s,
  let s' := foldl (λ s fileId, removeFile channel fileId s) s ids in
  (∀ fileId, fileId ∈ ids ∨ getFile fileId s = None → getFile fileId s' = None)
  ∧ (∀ fileId,
       fileId ∈ ids ∨ fileId ∉ default [] (files (getDraft channel s)) →
       fileId ∉ default [] (files (getDraft channel s')))
  ∧ (∀ other, other ≠ channel → drafts s' !! other = drafts s !! other)
  ∧ textSelection s' = textSelection s.
Proof.
  induction ids as [|g ids IH]; intros s.
  - cbn. repeat split; try done.
    + intros f [Hin|H]; [by apply elem_of_nil in Hin|done].
    + intros f [Hin|H]; [by apply elem_of_nil in Hin|done].
  - cbn [foldl]. cbn zeta in IH.
    destruct (IH (removeFile channel g s)) as (Hc & Hd & Ho & Ht).
    destruct (removeFile_frame channel g s) as (_ & Ht1 & Ho1).
    repeat split.
    + intros f Hf. apply Hc. destruct (decide (f = g)) as [->|Hne].
      * right. unfold getFile. rewrite fileCache_removeFile. apply lookup_delete_eq.
      * destruct Hf as [Hin|Hnone].
        -- left. apply elem_of_cons in Hin as [?|?]; done.
        -- right. unfold getFile in *. rewrite fileCache_removeFile.
           by rewrite lookup_delete_ne.
    + intros f Hf. apply Hd. rewrite getDraft_removeFile. cbn [files].
      destruct (decide (f = g)) as [->|Hne].
      * right. destruct (files (getDraft channel s)) as [l|]; cbn;
          [|apply not_elem_of_nil].
        intros Hin. by apply list_elem_of_filter in Hin as [? _].
      * destruct Hf as [Hin|Hnot].
        -- left. apply elem_of_cons in Hin as [?|?]; done.
        -- right. destruct (files (getDraft channel s)) as [l|]; cbn in *;
             [|apply not_elem_of_nil].
           intros Hin. apply list_elem_of_filter in Hin as [_ Hin]. done.
    + intros other Hne. rewrite Ho by done. by apply Ho1.
    + by rewrite Ht.
Qed.

Lemma filter_fresh_key key (pending : list UnsentMessage) (e : UnsentMessage) :
  idempotencyKey e = key →
  filter (λ entry, idempotencyKey entry ≠ key) (pending ++ [e])
  = filter (λ entry, idempotencyKey entry ≠ key) pending.
Proof.
  intros He. rewrite filter_app, filter_cons, decide_False by (by intros H; apply H).
  by rewrite filter_nil, app_nil_r.
Qed.

(** X12. When the message send of an attempt is accepted, the attempt
    returns; its calls are the key, the uploads, which all succeeded,
    the send, and after it only releases of previews; the outbox of the
    channel is what it was without the entries that carry the attempt's
    key; and every file of the payload is gone from the attachment cache
    and from the channel's draft. *)
Theorem sendDraft_sent channel existingDraft s r s' new :
  sendDraft CONFIGURATION world channel existingDraft s = (r, s') →
  events s' = new ++ events s →
  Exists successful_send new →
  let draft := payload_of CONFIGURATION channel existingDraft s in
  r = Return tt
  ∧ ∃ key data older revoked,
      new = revoked ++ EvSendMessage channel data key true :: older ++ [EvUlid key]
      ∧ Forall is_revoke revoked
      ∧ Forall successful_upload older
      ∧ outbox s' !! channel
        = Some (filter (λ entry, idempotencyKey entry ≠ key)
                  (getPendingMessages channel s))
      ∧ Forall (λ fileId, getFile fileId s' = None
                          ∧ fileId ∉ default [] (files (getDraft channel s')))
          (default [] (files draft)).
Proof.
  intros H Hev Hex draft.
  destruct (after_pop_frame CONFIGURATION channel existingDraft s) as (Ho0 & Hc0 & He0 & _).
  pose proof (sendDraft_cases _ _ _ _ _ _ _ H) as Hcases.
  apply sendDraft_runs in H. cbn zeta in H, Hcases. fold draft in H, Hcases.
  rewrite He0 in Hcases.
  destruct H as [(_ & _ & ->)|(Hn & ra & s2 & older & Hup & Hall & H)].
  { rewrite He0 in Hev. apply (app_inv_tail _ [] new) in Hev. subst new.
    by apply Exists_nil in Hex. }
  destruct Hcases as [(Hn' & _)|(_ & ra' & s2' & Hup' & Hs')]; [congruence|].
  rewrite Hup in Hup'. inversion Hup'; subst ra' s2'. clear Hup'.
  destruct ra as [attachments|[]]; [| | |done].
  2:{ exfalso. destruct H as (_ & _ & Hev'). rewrite Hev' in Hev.
      apply app_inv_tail in Hev. subst new.
      apply Exists_app in Hex as [Hex|Hex].
      - apply Exists_exists in Hex as (e & Hin & ? & ? & ? & ->).
        rewrite Forall_forall in Hall. by destruct (Hall _ Hin) as (? & ? & ? & ? & _).
      - apply Exists_cons in Hex as [(? & ? & ? & ?)|Hex]; [done|].
        by apply Exists_nil in Hex. }
  2:{ exfalso. destruct H as (_ & _ & last & (? & ? & ? & -> & _) & Hev').
      rewrite Hev' in Hev. apply app_inv_tail in Hev. subst new.
      apply Exists_cons in Hex as [(? & ? & ? & ?)|Hex]; [done|].
      apply Exists_app in Hex as [Hex|Hex].
      - apply Exists_exists in Hex as (e & Hin & ? & ? & ? & ->).
        rewrite Forall_forall in Hall. by destruct (Hall _ Hin) as (? & ? & ? & ? & _).
      - apply Exists_cons in Hex as [(? & ? & ? & ?)|Hex]; [done|].
        by apply Exists_nil in Hex. }
  destruct H as (-> & Hev2 & [[_ Hev']|(revoked & Hrev & Hev')]).
  { exfalso. rewrite Hev' in Hev. apply app_inv_tail in Hev. subst new.
    apply Exists_cons in Hex as [(? & ? & ? & ?)|Hex]; [done|].
    apply Exists_app in Hex as [Hex|Hex].
    - apply Exists_exists in Hex as (e & Hin & ? & ? & ? & ->).
      rewrite Forall_forall in Hall. by destruct (Hall _ Hin) as (? & ? & ? & ? & _).
    - apply Exists_cons in Hex as [(? & ? & ? & ?)|Hex]; [done|].
      by apply Exists_nil in Hex. }
  split; [done|]. rewrite Hev' in Hev. apply app_inv_tail in Hev. subst new.
  destruct Hs' as [_ Hs']. cbn zeta in Hs'.
  destruct (w_sendMessage world (events s2) channel _ _) eqn:Hok.
  2:{ exfalso. rewrite Hs' in Hev'. cbn [events set_outbox with_outbox emit] in Hev'.
      rewrite Hev2 in Hev'.
      change (?e :: (older ++ ?u) ++ events s) with ((e :: older ++ u) ++ events s) in Hev'.
      apply app_inv_tail in Hev'.
      destruct revoked as [|x revoked]; [by inversion Hev'|].
      inversion Hev' as [[Hx Hrest]]. subst x.
      apply Forall_cons in Hrev as [(? & ?) _]. done. }
  eexists _, _, older, revoked. split; [reflexivity|]. split; [done|]. split; [done|].
  apply uploadFiles_frame in Hup as (_ & Ho2 & _).
  destruct (queued_frame world channel draft (after_pop CONFIGURATION channel existingDraft s))
    as (_ & Hqo & _).
  set (s3 := emit _ s2) in Hs'.
  destruct (removeFiles_frame channel (default [] (files draft)) s3)
    as (Ho4 & _).
  destruct (removeFiles_released channel (default [] (files draft)) s3)
    as (Hc4 & Hd4 & _).
  cbn zeta in Ho4, Hc4, Hd4. rewrite Hs'.
  cbn [outbox set_outbox with_outbox]. rewrite lookup_insert_eq. split.
  - f_equal. unfold getPendingMessages at 1. rewrite Ho4. subst s3.
    cbn [outbox emit]. rewrite Ho2, Hqo, lookup_insert_eq. cbn [from_option Datatypes.id].
    rewrite He0. rewrite filter_fresh_key by done.
    unfold getPendingMessages. by rewrite Ho0.
  - apply Forall_forall. intros f Hf. split.
    + unfold getFile in *. cbn [fileCache set_outbox with_outbox]. apply Hc4. by left.
    + assert (∀ o x, getDraft channel (set_outbox channel o x) = getDraft channel x)
        as -> by done.
      apply Hd4. by left.
Qed.

(** X13. A payload with text and no files is sent with two calls: the
    key is drawn and the message is sent with the content and the
    replies and without an [attachments] field.  Nothing is uploaded or
    released and the attachment cache is untouched; the outbox ends
    without the attempt's entry when the send is accepted, and with it
    marked [failed] behind the others when it is rejected. *)
Theorem sendDraft_text_only channel existingDraft s :
  let draft := payload_of CONFIGURATION channel existingDraft s in
  let key := w_ulid world (events s) in
  let data := {| msg_content := content draft; msg_replies := replies draft;
                 msg_attachments := None |} in
  let ok := w_sendMessage world (EvUlid key :: events s) channel data key in
  let run := sendDraft CONFIGURATION world channel existingDraft s in
  nothing_to_send draft = false →
  default [] (files draft) = [] →
  fst run = Return tt
  ∧ events (snd run) = [EvSendMessage channel data key ok; EvUlid key] ++ events s
  ∧ fileCache (snd run) = fileCache s
  ∧ outbox (snd run) !! channel
    = Some (if ok
            then filter (λ entry, idempotencyKey entry ≠ key)
                   (getPendingMessages channel s)
            else (mark_failed key <$> getPendingMessages channel s)
                 ++ [{| idempotencyKey := key; status := failed; payload := draft |}]).
Proof.
  intros draft key data ok run Hn Hfiles.
  destruct (after_pop_frame CONFIGURATION channel existingDraft s) as (Ho0 & Hc0 & He0 & _).
  pose proof (sendDraft_cases CONFIGURATION world channel existingDraft s
                (fst run) (snd run) (surjective_pairing run)) as H.
  cbn zeta in H. fold draft in H. rewrite He0 in H. fold key in H.
  destruct H as [(Hn' & _)|(_ & ra & s2 & Hup & H)]; [congruence|].
  rewrite Hfiles in Hup, H. cbn [uploadFiles] in Hup. inversion Hup; subst ra s2.
  clear Hup. cbn [foldl] in H.
  destruct (queued_frame world channel draft (after_pop CONFIGURATION channel existingDraft s))
    as (Hq & Hqo & Hqc & _). cbn zeta in Hq, Hqo.
  rewrite He0 in Hq, Hqo. fold key in Hq, Hqo.
  rewrite Hq in H. change (message_data draft []) with data in H. fold ok in H.
  destruct H as [Hr Hs]. split; [done|]. rewrite Hs.
  unfold getPendingMessages.
  destruct ok; cbn [events fileCache outbox set_outbox with_outbox emit];
    rewrite Hq, Hqc, Hc0, Hqo, !lookup_insert_eq; cbn [from_option Datatypes.id];
    repeat split.
  - rewrite filter_fresh_key by done. unfold getPendingMessages. by rewrite Ho0.
  - rewrite fmap_app. cbn [fmap list_fmap]. rewrite mark_failed_queued.
    unfold getPendingMessages. by rewrite Ho0.
Qed.

(** X14. A payload that names a file the attachment cache does not hold
    cannot be sent: the attempt throws, at the missing file or at an
    upload that failed before it, no message is sent, and the entry
    queued for the attempt stays in the outbox with status [sending]. *)
Theorem sendDraft_uncached_file channel existingDraft s r s' new fileId :
  sendDraft CONFIGURATION world channel existingDraft s = (r, s') →
  events s' = new ++ events s →
  let draft := payload_of CONFIGURATION channel existingDraft s in
  fileId ∈ default [] (files draft) →
  getFile fileId s = None →
  (r = Throw TypeError ∨ r = Throw UploadError)
  ∧ ¬ Exists is_send_call new
  ∧ outbox s' !! channel
    = Some (getPendingMessages channel s
            ++ [queued_entry draft (w_ulid world (events s))]).
Proof.
  intros H Hev draft Hin Hnone.
  destruct (after_pop_frame CONFIGURATION channel existingDraft s) as (Ho0 & Hc0 & He0 & _).
  apply sendDraft_runs in H. cbn zeta in H. fold draft in H.
  destruct H as [(Hn & _)|(_ & ra & s2 & older & Hup & Hall & H)].
  { exfalso. unfold nothing_to_send in Hn. apply andb_true_iff in Hn as [_ Hn].
    apply negb_true_iff, Nat.ltb_ge in Hn.
    destruct (default [] (files draft)); [by apply elem_of_nil in Hin|cbn in Hn; lia]. }
  pose proof (uploadFiles_frame _ _ _ _ _ _ Hup)
    as (_ & Ho2 & _ & _ & _ & older' & _ & Hr).
  destruct (queued_frame world channel draft (after_pop CONFIGURATION channel existingDraft s))
    as (_ & Hqo & Hqc & _). cbn zeta in Hqo. rewrite He0 in Hqo.
  assert (outbox s2 !! channel
          = Some (getPendingMessages channel s
                  ++ [queued_entry draft (w_ulid world (events s))])) as Hout.
  { rewrite Ho2, Hqo, lookup_insert_eq. unfold getPendingMessages. by rewrite Ho0. }
  assert (∀ l, Forall successful_upload l → ¬ Exists is_send_call l) as Hnosend.
  { intros l Hl Hex. apply Exists_exists in Hex as (e & He & ? & ? & ? & ? & ->).
    rewrite Forall_forall in Hl. by destruct (Hl _ He) as (? & ? & ? & ? & _). }
  destruct ra as [attachments|[]]; [| | |done].
  - exfalso. destruct Hr as [_ Hfiles]. rewrite Forall_forall in Hfiles.
    specialize (Hfiles _ Hin). rewrite Hqc, Hc0 in Hfiles. unfold getFile in Hnone.
    rewrite Hnone in Hfiles. by destruct Hfiles.
  - destruct H as (-> & -> & Hev'). split; [by left|]. split; [|done].
    rewrite Hev' in Hev. apply app_inv_tail in Hev. subst new.
    intros Hex. apply Exists_app in Hex as [Hex|Hex]; [by apply Hnosend in Hex|].
    apply Exists_cons in Hex as [(? & ? & ? & ? & ?)|Hex]; [done|].
    by apply Exists_nil in Hex.
  - destruct H as (-> & -> & last & (? & ? & ? & -> & _) & Hev').
    split; [by right|]. split; [|done].
    rewrite Hev' in Hev. apply app_inv_tail in Hev. subst new.
    intros Hex. apply Exists_cons in Hex as [(? & ? & ? & ? & ?)|Hex]; [done|].
    apply Exists_app in Hex as [Hex|Hex]; [by apply Hnosend in Hex|].
    apply Exists_cons in Hex as [(? & ? & ? & ? & ?)|Hex]; [done|].
    by apply Exists_nil in Hex.
Qed.

Lemma filter_failed_attempt key draft (pending : list UnsentMessage) :
  Forall (λ e, idempotencyKey e ≠ key) pending →
  filter (λ entry, idempotencyKey entry ≠ key)
    (mark_failed key <$> (pending ++ [queued_entry draft key]))
  = pending.
Proof.
  intros Hall. rewrite fmap_app, filter_app. cbn [fmap list_fmap].
  rewrite mark_failed_queued, filter_cons, decide_False, filter_nil, app_nil_r
    by (by intros H; apply H).
  induction Hall as [|e pending He _ IH]; [done|].
  cbn [fmap list_fmap]. rewrite mark_failed_other by done.
  by rewrite filter_cons, decide_True, IH.
Qed.

(** X15. [cancelSend] undoes a failed attempt in the outbox: after a send
    that failed at the message send under a key new to the channel,
    cancelling that key leaves the channel's pending messages as they
    were before the attempt.  It releases nothing: the attachment cache
    and the drafts are what the attempt left. *)
Theorem cancelSend_undoes_failed_send channel existingDraft s r s1 new :
  sendDraft CONFIGURATION world channel existingDraft s = (r, s1) →
  events s1 = new ++ events s →
  Exists failed_send new →
  (∀ e, e ∈ getPendingMessages channel s →
        idempotencyKey e ≠ w_ulid world (events s)) →
  let s2 := cancelSend channel (w_ulid world (events s)) s1 in
  getPendingMessages channel s2 = getPendingMessages channel s
  ∧ fileCache s2 = fileCache s1
  ∧ drafts s2 = drafts s1
  ∧ events s2 = events s1.
Proof.
  intros H Hev Hex Hfresh s2.
  destruct (after_pop_frame CONFIGURATION channel existingDraft s) as (Ho0 & Hc0 & He0 & _).
  apply sendDraft_runs in H. cbn zeta in H.
  destruct H as [(_ & _ & ->)|(_ & ra & s2' & older & Hup & Hall & H)].
  { rewrite He0 in Hev. apply (app_inv_tail _ [] new) in Hev. subst new.
    by apply Exists_nil in Hex. }
  assert (∀ l, Forall successful_upload l → ¬ Exists failed_send l) as Hnosend
    by apply successful_not_send.
  destruct ra as [attachments|[]]; [| | |done].
  2:{ exfalso. destruct H as (_ & _ & Hev'). rewrite Hev' in Hev.
      apply app_inv_tail in Hev. subst new.
      apply Exists_app in Hex as [Hex|Hex]; [by apply Hnosend in Hex|].
      apply Exists_cons in Hex as [(? & ? & ? & ?)|Hex]; [done|].
      by apply Exists_nil in Hex. }
  2:{ exfalso. destruct H as (_ & _ & last & (? & ? & ? & -> & _) & Hev').
      rewrite Hev' in Hev. apply app_inv_tail in Hev. subst new.
      apply Exists_cons in Hex as [(? & ? & ? & ?)|Hex]; [done|].
      apply Exists_app in Hex as [Hex|Hex]; [by apply Hnosend in Hex|].
      apply Exists_cons in Hex as [(? & ? & ? & ?)|Hex]; [done|].
      by apply Exists_nil in Hex. }
  destruct H as (_ & _ & [[Hs1 _]|(revoked & Hrev & Hev')]).
  2:{ exfalso. rewrite Hev' in Hev. apply app_inv_tail in Hev. subst new.
      apply Exists_app in Hex as [Hex|Hex]; [by apply revoke_not_send in Hex|].
      apply Exists_cons in Hex as [(? & ? & ? & ?)|Hex]; [done|].
      apply Exists_app in Hex as [Hex|Hex]; [by apply Hnosend in Hex|].
      apply Exists_cons in Hex as [(? & ? & ? & ?)|Hex]; [done|].
      by apply Exists_nil in Hex. }
  subst s2. unfold cancelSend. repeat split.
  unfold getPendingMessages at 1. cbn [outbox set_outbox with_outbox].
  rewrite lookup_insert_eq. cbn [from_option Datatypes.id].
  unfold getPendingMessages at 1. rewrite Hs1.
  cbn [outbox set_outbox with_outbox]. rewrite lookup_insert_eq.
  cbn [from_option Datatypes.id]. apply filter_failed_attempt.
  by apply Forall_forall.
Qed.

Lemma find_unknown_key key (pending : list UnsentMessage) :
  Forall (λ e, idempotencyKey e ≠ key) pending →
  List.find (λ entry, bool_decide (idempotencyKey entry = key)) pending = None
  ∧ filter (λ entry, idempotencyKey entry ≠ key) pending = pending.
Proof.
  induction 1 as [|e pending He _ [IH1 IH2]]; [done|]. cbn [List.find].
  rewrite bool_decide_eq_false_2 by done. rewrite filter_cons, decide_True by done.
  by rewrite IH1, IH2.
Qed.

(** X16. [retrySend] with a key it does not find.  On a channel that has
    no outbox list it throws a [TypeError] and changes nothing.  On a
    channel whose list holds no entry with the key it hands [undefined]
    to [sendDraft], which then pops and sends the channel's live draft:
    the store and the calls end as after a [sendDraft] without an
    explicit draft.  The caller of [retrySend] gets [undefined] however
    that attempt ends: the [TypeError] of the missing list is the only
    error that reaches it. *)
Theorem retrySend_unknown_key channel key s :
  (outbox s !! channel = None →
   retrySend CONFIGURATION world channel key s = (Throw TypeError, s))
  ∧ (∀ pending, outbox s !! channel = Some pending →
       Forall (λ e, idempotencyKey e ≠ key) pending →
       retrySend CONFIGURATION world channel key s
       = (Return tt, snd (sendDraft CONFIGURATION world channel None s)))
  ∧ (is_Some (outbox s !! channel) →
     fst (retrySend CONFIGURATION world channel key s) = Return tt).
Proof.
  split; [|split].
  - intros Hnone. unfold retrySend, bind, gets. by rewrite Hnone.
  - intros pending Hsome Hall. unfold retrySend, bind at 1, gets. rewrite Hsome.
    destruct (find_unknown_key key pending Hall) as [-> Hfilter].
    unfold bind, modify, dropped, cancelSend, getPendingMessages. rewrite Hsome.
    cbn [from_option Datatypes.id fmap option_fmap option_map]. rewrite Hfilter.
    unfold set_outbox, with_outbox. rewrite insert_id by done. by destruct s.
  - intros [pending Hsome]. unfold retrySend, bind at 1, gets. by rewrite Hsome.
Qed.

(** X17. A send attempt on one channel, however it ends, leaves the
    drafts and the outbox lists of the other channels and the text
    selection as they were. *)
Theorem sendDraft_other_channels channel existingDraft s other :
  other ≠ channel →
  let s' := snd (sendDraft CONFIGURATION world channel existingDraft s) in
  drafts s' !! other = drafts s !! other
  ∧ outbox s' !! other = outbox s !! other
  ∧ textSelection s' = textSelection s.
Proof.
  intros Hne s'. subst s'.
  set (run := sendDraft CONFIGURATION world channel existingDraft s).
  pose proof (sendDraft_cases CONFIGURATION world channel existingDraft s
                (fst run) (snd run) (surjective_pairing run)) as H.
  cbn zeta in H.
  set (s0 := after_pop CONFIGURATION channel existingDraft s) in *.
  assert (drafts s0 !! other = drafts s !! other
          ∧ outbox s0 = outbox s ∧ textSelection s0 = textSelection s)
    as (Hd0 & Ho0 & Ht0).
  { subst s0. destruct existingDraft; [done|]. cbn [after_pop]. unfold popDraft.
    cbn [snd]. rewrite setDraft_Data. unfold set_drafts.
    cbn [drafts outbox textSelection with_drafts]. by rewrite lookup_insert_ne. }
  destruct H as [(_ & _ & ->)|(_ & ra & s2 & Hup & H)];
    [by rewrite Hd0, Ho0, Ht0|].
  apply uploadFiles_frame in Hup as (Hd2 & Ho2 & Ht2 & _).
  destruct (queued_frame world channel (payload_of CONFIGURATION channel existingDraft s) s0)
    as (_ & Hqo & _ & Hqd).
  assert (textSelection (queued world channel
            (payload_of CONFIGURATION channel existingDraft s) s0) = textSelection s0)
    as Hqt by done.
  assert (drafts s2 !! other = drafts s !! other
          ∧ outbox s2 !! other = outbox s !! other
          ∧ textSelection s2 = textSelection s) as (Hd & Ho & Ht).
  { rewrite Hd2, Ho2, Ht2, Hqd, Hqo, Hqt, lookup_insert_ne by done.
    by rewrite Ho0. }
  destruct ra as [attachments|e]; [|by destruct H as [_ ->]].
  destruct H as [_ ->]. cbn zeta.
  destruct (w_sendMessage world _ _ _ _).
  - match goal with
    | |- context [foldl ?f ?s3 ?l] =>
        destruct (removeFiles_frame channel l s3) as (Ho4 & _);
        destruct (removeFiles_released channel l s3) as (_ & _ & Hd4 & Ht4)
    end.
    cbn zeta in Ho4, Hd4, Ht4.
    cbn [drafts outbox textSelection set_outbox with_outbox].
    rewrite lookup_insert_ne, Ho4, Hd4, Ht4 by done. done.
  - cbn [drafts outbox textSelection set_outbox with_outbox emit].
    by rewrite lookup_insert_ne.
Qed.

End MoreSendFacts.

(** ** More on the validation of persisted state *)

Module MoreCleanFacts.

Import Js Clean.

Lemma clean_draft_step messageDrafts drafts channelId drafts' :
  clean_draft messageDrafts drafts channelId = Return drafts' →
  (drafts' = drafts
   ∧ ∀ d, ¬ draft_cleaned messageDrafts channelId d)
  ∨ ∃ d, drafts' = <[channelId := d]> drafts
      ∧ draft_cleaned messageDrafts channelId d.
Proof.
  unfold clean_draft. set (entry := opt_prop messageDrafts channelId).
  intros H.
  destruct (validateReplies (opt_prop entry "replies")) as [valid|] eqn:Hv; [|done].
  cbn [cbind] in H.
  set (c := match opt_prop entry "content" with
            | JString c => if string_truthy c then Some c else None
            | _ => None
            end) in *.
  set (r := if valid then Some (array_items (opt_prop entry "replies")) else None) in *.
  assert (∀ x, c = Some x ↔ (opt_prop entry "content" = JString x ∧ x ≠ "")) as Hc.
  { intros x. subst c. destruct (opt_prop entry "content") as [| | | |y| |];
      try (split; [done|by intros [? _]]).
    unfold string_truthy. destruct (String.eqb_spec y "") as [->|Hne]; cbn.
    - split; [done|]. by intros [[= <-] ?].
    - split; [by intros [= <-]|by intros [[= <-] _]]. }
  assert (∀ rs, r = Some rs ↔
            (opt_prop entry "replies" = JArray rs
             ∧ validateReplies (JArray rs) = Return true)) as Hr.
  { intros rs. subst r. destruct valid.
    - destruct (CleanFacts.validateReplies_array _ Hv) as (ys & Hys & _).
      rewrite Hys in *. cbn [array_items]. split.
      + by intros [= <-].
      + by intros [[= <-] _].
    - split; [done|]. intros [Heq Hv']. rewrite Heq in Hv. congruence. }
  destruct (bool_decide (is_Some c) || bool_decide (is_Some r)) eqn:Hkeep.
  - right. inversion H. eexists. split; [reflexivity|].
    unfold draft_cleaned. cbn [files content replies]. fold entry.
    split; [done|]. split; [|split; [exact Hc|exact Hr]].
    apply orb_true_iff in Hkeep as [Hk|Hk]; apply bool_decide_eq_true in Hk; auto.
  - left. inversion H. split; [done|]. intros d (_ & Hsome & Hc' & Hr').
    fold entry in Hc', Hr'.
    apply orb_false_iff in Hkeep as [Hk1 Hk2].
    apply bool_decide_eq_false in Hk1, Hk2.
    destruct Hsome as [[x Hx]|[x Hx]].
    + apply Hk1. exists x. apply Hc, Hc', Hx.
    + apply Hk2. exists x. apply Hr, Hr', Hx.
Qed.

Lemma clean_drafts_fold messageDrafts channels : ∀ drafts drafts',
  cfold (clean_draft messageDrafts) drafts channels = Return drafts' →
  (∀ channelId d, drafts !! channelId = Some d →
     draft_cleaned messageDrafts channelId d) →
  (∀ channelId d, drafts' !! channelId = Some d →
     draft_cleaned messageDrafts channelId d)
  ∧ (∀ channelId, is_Some (drafts !! channelId) → is_Some (drafts' !! channelId))
  ∧ (∀ channelId, channelId ∈ channels →
       (∃ d, draft_cleaned messageDrafts channelId d) →
       is_Some (drafts' !! channelId)).
Proof.
  induction channels as [|ch channels IH]; intros drafts drafts' H Hinv.
  - inversion H; subst. split; [done|]. split; [done|].
    intros c Hin. by apply elem_of_nil in Hin.
  - cbn [cfold] in H.
    destruct (clean_draft messageDrafts drafts ch) as [d1|] eqn:E; [|done].
    cbn [cbind] in H.
    apply clean_draft_step in E as [[-> Hnone]|(d & -> & Hd)].
    + destruct (IH _ _ H Hinv) as (H1 & H2 & H3). split; [done|]. split; [done|].
      intros c Hin Hex. apply elem_of_cons in Hin as [->|Hin]; [|by apply H3].
      destruct Hex as [d Hd]. by destruct (Hnone d).
    + assert (∀ c x, <[ch:=d]> drafts !! c = Some x →
                     draft_cleaned messageDrafts c x) as Hinv'.
      { intros c x Hl. destruct (decide (ch = c)) as [->|Hne].
        - rewrite lookup_insert_eq in Hl. by inversion Hl; subst.
        - rewrite lookup_insert_ne in Hl by done. by apply Hinv. }
      destruct (IH _ _ H Hinv') as (H1 & H2 & H3). split; [done|]. split.
      * intros c Hc. apply H2. destruct (decide (ch = c)) as [->|Hne].
        -- rewrite lookup_insert_eq. eauto.
        -- by rewrite lookup_insert_ne.
      * intros c Hin Hex. apply elem_of_cons in Hin as [->|Hin]; [|by apply H3].
        apply H2. rewrite lookup_insert_eq. eauto.
Qed.

(** X18. The drafts [clean] returns.  A draft is kept for a channel
    exactly when the persisted draft of the channel yields something:
    its content when that is a non-empty string, its replies when
    [validateReplies] accepts them.  A kept draft holds at least one of
    the two and never files. *)
Theorem clean_drafts_kept input output :
  clean input = Return output →
  (∀ channelId d, td_drafts output !! channelId = Some d →
     ∃ messageDrafts, prop input "drafts" = Return messageDrafts
       ∧ draft_cleaned messageDrafts channelId d)
  ∧ (∀ messageDrafts channelId,
       prop input "drafts" = Return messageDrafts →
       typeof_object messageDrafts = true →
       channelId ∈ fst <$> own_entries messageDrafts →
       (∃ d, draft_cleaned messageDrafts channelId d) →
       is_Some (td_drafts output !! channelId)).
Proof.
  unfold clean. intros H.
  destruct (prop input "drafts") as [messageDrafts|] eqn:Hp; [|done].
  cbn [cbind] in H.
  destruct (typeof_object messageDrafts) eqn:Hobj.
  - destruct (keys messageDrafts) as [channels|] eqn:Hk; [|done]. cbn [cbind] in H.
    destruct (cfold (clean_draft messageDrafts) ∅ channels) as [drafts|] eqn:Hfold;
      [|done].
    cbn [cbind] in H.
    match goal with
    | H : cbind ?m _ = _ |- _ => destruct m as [pendingMessages|]; [|done]
    end. cbn [cbind] in H.
    match goal with
    | H : cbind ?m _ = _ |- _ => destruct m as [outbox|]; [|done]
    end. cbn [cbind] in H. inversion H; subst. cbn [td_drafts].
    destruct (clean_drafts_fold _ _ _ _ Hfold) as (H1 & _ & H3).
    { intros c d. by rewrite lookup_empty. }
    split.
    + intros c d Hl. exists messageDrafts. split; [done|]. by apply H1.
    + intros md c [= <-] _ Hin Hex. apply H3; [|done].
      unfold keys in Hk. destruct messageDrafts; try done; by inversion Hk; subst.
  - cbn [cbind] in H.
    match goal with
    | H : cbind ?m _ = _ |- _ => destruct m as [pendingMessages|]; [|done]
    end. cbn [cbind] in H.
    match goal with
    | H : cbind ?m _ = _ |- _ => destruct m as [outbox|]; [|done]
    end. cbn [cbind] in H. inversion H; subst. cbn [td_drafts]. split.
    + intros c d. by rewrite lookup_empty.
    + intros md c [= <-]. congruence.
Qed.

Lemma clean_channels_dom pendingMessages channels : ∀ outbox outbox',
  cfold (clean_channel pendingMessages) outbox channels = Return outbox' →
  ∀ channelId,
    is_Some (outbox' !! channelId)
    ↔ is_Some (outbox !! channelId) ∨ channelId ∈ channels.
Proof.
  induction channels as [|ch channels IH]; intros outbox outbox' H c.
  - inversion H; subst. split; [by left|]. intros [?|Hin]; [done|].
    by apply elem_of_nil in Hin.
  - cbn [cfold] in H.
    destruct (clean_channel pendingMessages outbox ch) as [o1|] eqn:E; [|done].
    cbn [cbind] in H. rewrite (IH _ _ H c). clear H IH.
    unfold clean_channel in E.
    destruct (prop pendingMessages ch) as [entry|]; [|done]. cbn [cbind] in E.
    match goal with
    | H : cbind ?m _ = _ |- _ => destruct m as [messages|]; [|done]
    end. cbn [cbind] in E. inversion E; subst o1.
    rewrite elem_of_cons. destruct (decide (ch = c)) as [->|Hne].
    + rewrite lookup_insert_eq. split; [by right; left|eauto].
    + rewrite lookup_insert_ne by done. split.
      * intros [?|?]; [by left|by right; right].
      * intros [?|[?|?]]; [by left|done|by right].
Qed.

(** X19. The outbox [clean] returns has a list for exactly the channels
    of the persisted outbox.  A channel whose persisted value is not an
    array gets the empty list; and when the persisted outbox is not an
    object the outbox is empty. *)
Theorem clean_outbox_channels input output pendingMessages :
  clean input = Return output →
  prop input "outbox" = Return pendingMessages →
  (typeof_object pendingMessages = false → td_outbox output = ∅)
  ∧ (typeof_object pendingMessages = true →
     (∀ channelId,
        is_Some (td_outbox output !! channelId)
        ↔ channelId ∈ fst <$> own_entries pendingMessages)
     ∧ (∀ channelId entry messages,
          td_outbox output !! channelId = Some messages →
          prop pendingMessages channelId = Return entry →
          isArray entry = false → messages = [])).
Proof.
  unfold clean. intros H Hp.
  destruct (prop input "drafts") as [messageDrafts|]; [|done]. cbn [cbind] in H.
  match goal with
  | H : cbind ?m _ = _ |- _ => destruct m as [drafts|]; [|done]
  end. cbn [cbind] in H. rewrite Hp in H. cbn [cbind] in H.
  destruct (typeof_object pendingMessages) eqn:Hobj.
  - destruct (keys pendingMessages) as [channels|] eqn:Hk; [|done]. cbn [cbind] in H.
    destruct (cfold _ _ _) as [outbox|] eqn:Hfold; [|done]. cbn [cbind] in H.
    inversion H; subst. cbn [td_outbox]. split; [done|]. intros _.
    assert (channels = fst <$> own_entries pendingMessages) as ->.
    { unfold keys in Hk. destruct pendingMessages; try done; by inversion Hk. }
    split.
    + intros c. rewrite (clean_channels_dom _ _ _ _ Hfold c). rewrite lookup_empty.
      split; [by intros [[? ?]|?]|by right].
    + intros c entry messages Hl Hentry Harr.
      pose proof (CleanFacts.clean_channels _ _ _ _ Hfold) as Hall.
      specialize (Hall ltac:(intros ? ?; by rewrite lookup_empty) _ _ Hl).
      destruct Hall as (entry' & Hentry' & Hloop). rewrite Hentry in Hentry'.
      inversion Hentry'; subst entry'. by rewrite Harr in Hloop.
  - cbn [cbind] in H. inversion H; subst. cbn [td_outbox]. split; [done|].
    intros ?. congruence.
Qed.

End MoreCleanFacts.

(** ** Worked examples *)

Module Examples.

Import Fixtures.

(** *** [sendDraft] with nothing to send *)

(** C1, as stated, fails on a draft that holds only replies: nothing is
    queued or sent, but the replies are gone from the stored draft. *)
Lemma sendDraft_drops_replies :
  let s' := snd (sendDraft config offline "c" None replies_only) in
  nothing_to_send (fst (popDraft config "c" replies_only)) = true
  ∧ outbox s' = outbox replies_only
  ∧ events s' = events replies_only
  ∧ replies (getDraft "c" replies_only) = Some [reply "m1"]
  ∧ replies (getDraft "c" s') = Some []
  ∧ getDraft "c" s' ≠ getDraft "c" replies_only.
Proof. vm_compute. repeat split; discriminate. Qed.

Lemma sendDraft_nothing_to_send_witness :
  nothing_to_send (fst (popDraft config "c" replies_only)) = true
  ∧ fst (sendDraft config offline "c" None replies_only) = Return tt
  ∧ outbox (snd (sendDraft config offline "c" None replies_only))
    = outbox replies_only.
Proof.
  assert (nothing_to_send (fst (popDraft config "c" replies_only)) = true) as H
    by reflexivity.
  split; [exact H|].
  destruct (sendDraft_nothing_to_send config offline "c" replies_only H)
    as (Hr & Ho & _).
  split; [exact Hr|exact Ho].
Defined.

(** *** A send attempt whose upload fails *)

Lemma sendDraft_upload_error_witness :
  let run := sendDraft config no_uploads "c" None composing in
  let new := [EvUpload "f1" photo refused; EvUlid "key0"] in
  events (snd run) = new ++ events composing
  ∧ Exists failed_upload new
  ∧ fst run = Throw UploadError
  ∧ outbox (snd run) !! "c" = Some [queued_entry hi_with_photo "key0"].
Proof.
  intros run new.
  assert (events (snd run) = new ++ events composing) as Hev by reflexivity.
  assert (Exists failed_upload new) as Hex.
  { left. exists "f1", photo, refused. split; reflexivity. }
  split; [exact Hev|]. split; [exact Hex|].
  destruct (sendDraft_upload_error config no_uploads "c" None composing
              (fst run) (snd run) new (surjective_pairing run) Hev Hex)
    as (Hr & _).
  split; [exact Hr|reflexivity].
Defined.

(** *** A send attempt whose message send fails, and its retry *)

Lemma sendDraft_send_failure_witness :
  let run := sendDraft config offline "c" None composing in
  let new := [EvSendMessage "c" hi_data "key0" false;
              EvUpload "f1" photo accepted; EvUlid "key0"] in
  events (snd run) = new ++ events composing
  ∧ Exists failed_send new
  ∧ fst run = Return tt
  ∧ outbox (snd run) !! "c"
    = Some [{| idempotencyKey := "key0"; status := failed;
               payload := hi_with_photo |}]
  ∧ (autumnId <$> getFile "f1" (snd run)) = Some (Some "srv-a.png").
Proof.
  intros run new.
  assert (events (snd run) = new ++ events composing) as Hev by reflexivity.
  assert (Exists failed_send new) as Hex.
  { left. exists "c", hi_data, "key0". reflexivity. }
  split; [exact Hev|]. split; [exact Hex|].
  destruct (sendDraft_send_failure config offline "c" None composing
              (fst run) (snd run) new (surjective_pairing run) Hev Hex)
    as (Hr & _).
  split; [exact Hr|]. split; reflexivity.
Defined.

Lemma attachments_uploaded_once_witness :
  let run := sendDraft config offline "c" None composing in
  let new := [EvSendMessage "c" hi_data "key0" false;
              EvUpload "f1" photo accepted; EvUlid "key0"] in
  let retry := retrySend config offline "c" "key0" (snd run) in
  (∀ h f, up_id (w_upload offline h f) ≠ "")
  ∧ events (snd run) = new ++ events composing
  ∧ Exists failed_send new
  ∧ (∀ e, e ∈ getPendingMessages "c" composing →
          idempotencyKey e ≠ w_ulid offline (events composing))
  ∧ ∃ key' ok revoked,
      Forall is_revoke revoked
      ∧ events (snd retry)
        = revoked ++ EvSendMessage "c" hi_data key' ok
            :: EvUlid key' :: events (snd run).
Proof.
  intros run new retry.
  assert (∀ h f, up_id (w_upload offline h f) ≠ "") as Hid by (intros h f; discriminate).
  assert (events (snd run) = new ++ events composing) as Hev by reflexivity.
  assert (Exists failed_send new) as Hex.
  { left. exists "c", hi_data, "key0". reflexivity. }
  assert (∀ e, e ∈ getPendingMessages "c" composing →
               idempotencyKey e ≠ w_ulid offline (events composing)) as Hfresh.
  { intros e He. by apply elem_of_nil in He. }
  repeat (split; [assumption|]).
  destruct (proj2 (proj2 (proj2 (attachments_uploaded_once config offline)))
              "c" None composing (fst run) (snd run) new Hid
              (surjective_pairing run) Hev Hex Hfresh)
    as (key & data & older & Hnew & Hretry).
  assert (key = "key0" ∧ data = hi_data) as [-> ->].
  { destruct older as [|e [|e' older]]; inversion Hnew; subst; done. }
  exact (Hretry (fst retry) (snd retry) (surjective_pairing retry)).
Defined.

(** *** [insertText] *)

(** The example of the specification: ["hello"], the selection [3..5]
    and the text ["XY"]. *)
Example insertText_hello :
  content (getDraft "c" (insertText "XY" typing_hello)) = Some "helXY"
  ∧ textSelection (insertText "XY" typing_hello)
    = Some {| channelId := "c"; start := 5; end_ := 5 |}.
Proof. split; reflexivity. Qed.

(** C8, as stated, fails when the selection lies beyond the content, as
    it does once the draft was popped for sending: the selection is still
    [3..5], the content is empty, and inserting ["XY"] puts the cursor at
    [2], not at [start + text.length = 5]. *)
Lemma insertText_cursor_beyond_content :
  textSelection after_sending_hello = Some selection_hello
  ∧ content (getDraft "c" after_sending_hello) = Some ""
  ∧ content (getDraft "c" (insertText "XY" after_sending_hello)) = Some "XY"
  ∧ textSelection (insertText "XY" after_sending_hello)
    = Some {| channelId := "c"; start := 2; end_ := 2 |}
  ∧ textSelection (insertText "XY" after_sending_hello)
    ≠ Some {| channelId := "c";
              start := start selection_hello + Js.str_length "XY";
              end_ := start selection_hello + Js.str_length "XY" |}.
Proof. vm_compute. repeat split; discriminate. Qed.

Lemma insertText_splices_witness :
  textSelection typing_hello = Some selection_hello
  ∧ (0 ≤ start selection_hello ≤ Js.str_length "hello")%Z
  ∧ content (getDraft "c" (insertText "XY" typing_hello)) = Some "helXY"
  ∧ textSelection (insertText "XY" typing_hello)
    = Some {| channelId := "c"; start := 5; end_ := 5 |}
  ∧ (Js.str_length (Js.slice "hello" 0 3) + Js.str_length "XY"
     = start selection_hello + Js.str_length "XY")%Z.
Proof.
  assert (textSelection typing_hello = Some selection_hello) as H by reflexivity.
  assert (0 ≤ start selection_hello ≤ Js.str_length "hello")%Z as Hi
    by (vm_compute; split; discriminate).
  split; [exact H|]. split; [exact Hi|].
  destruct (proj2 insertText_splices "XY" typing_hello selection_hello H)
    as (Hc & _ & _ & Hs & Hcursor).
  split; [exact Hc|]. split; [exact Hs|exact (Hcursor Hi)].
Defined.

(** *** [hasDraft] *)

Lemma hasDraft_throws_on_replies_only_witness :
  0 < MAX_REPLIES config
  ∧ fst (hasDraft "c" (addReply config offline (message "m1") "alice" initial))
    = Throw TypeError.
Proof.
  assert (0 < MAX_REPLIES config) as H by (cbn; lia).
  split; [exact H|].
  exact (proj2 (hasDraft_throws_on_replies_only config offline (message "m1")
                  "alice" H)).
Defined.

(** The same store, written out: a draft with replies and no content. *)
Example hasDraft_replies_only :
  hasDraft "c" replies_only = (Throw TypeError, replies_only).
Proof. reflexivity. Qed.

Example hasDraft_without_draft :
  hasDraft "c" initial = (Return JUndefined, initial).
Proof. reflexivity. Qed.

(** *** [clearDraft] *)

(** C7, as stated, fails: the cleared draft is not the empty object. *)
Lemma clearDraft_not_empty_object :
  getDraft "c" (clearDraft "c" composing)
  = {| content := Some ""; replies := Some []; files := Some [] |}
  ∧ getDraft "c" (clearDraft "c" composing) ≠ emptyDraft.
Proof. split; [reflexivity|discriminate]. Qed.

Lemma clearDraft_resets_witness :
  "f1" ∈ default [] (files (getDraft "c" composing))
  ∧ getFile "f1" composing = Some (cached photo None)
  ∧ getFile "f1" (clearDraft "c" composing) = None.
Proof.
  assert ("f1" ∈ default [] (files (getDraft "c" composing))) as H
    by (apply list_elem_of_singleton; reflexivity).
  split; [exact H|]. split; [reflexivity|].
  exact (proj2 (clearDraft_resets "c" composing) "f1" H).
Defined.

(** *** [addReply] *)

(** A draft with room, where the two calls leave one reply, and a full
    draft, where a call changes nothing. *)
Lemma addReply_twice_witness :
  let s2 := addReply config offline (message "m2") "alice"
              (addReply config offline (message "m2") "alice" replies_only) in
  let full1 := addReply config offline (message "m6") "alice" full_of_replies in
  length (default [] (replies (getDraft "c" replies_only))) < MAX_REPLIES config
  ∧ reply_count (message "m2") (default [] (replies (getDraft "c" replies_only))) ≤ 1
  ∧ reply_count (message "m2") (default [] (replies (getDraft "c" s2))) = 1
  ∧ (MAX_REPLIES config
     ≤ length (default [] (replies (getDraft "c" full_of_replies))))%nat
  ∧ replies (getDraft "c" full1) = replies (getDraft "c" full_of_replies).
Proof.
  intros s2 full1.
  assert (length (default [] (replies (getDraft "c" replies_only)))
          < MAX_REPLIES config) as Hroom by (vm_compute; lia).
  assert (reply_count (message "m2")
            (default [] (replies (getDraft "c" replies_only))) ≤ 1) as Hone
    by (vm_compute; lia).
  assert (MAX_REPLIES config
          ≤ length (default [] (replies (getDraft "c" full_of_replies))))%nat
    as Hfull by (vm_compute; lia).
  split; [exact Hroom|]. split; [exact Hone|].
  split; [exact (proj1 (proj2 (addReply_twice config offline (message "m2")
                                 "alice" replies_only)) Hroom Hone)|].
  split; [exact Hfull|].
  exact (proj1 (proj1 (proj2 (proj2 (proj2 (addReply_twice config offline
                                              (message "m6") "alice"
                                              full_of_replies)))) Hfull)).
Defined.

(** *** [clean] *)

(** The persisted message with the replies [[0, "junk", {id: 7}]]: the
    entry restored from it carries them. *)
Lemma clean_keeps_malformed_replies_witness :
  Clean.clean tampered = Return restored_tampered
  ∧ td_outbox restored_tampered !! "c" = Some [restored_junk]
  ∧ Clean.passes tampered_message
  ∧ Js.truthy (JNumber 0) = false
  ∧ ¬ Clean.well_formed_replies (JArray junk_replies)
  ∧ ∃ msg, msg ∈ [restored_junk] ∧ replies (payload msg) = Some junk_replies.
Proof.
  assert (Clean.clean tampered = Return restored_tampered) as H by reflexivity.
  assert (td_outbox restored_tampered !! "c" = Some [restored_junk]) as Hl
    by reflexivity.
  assert (Js.prop tampered "outbox"
          = Return (JObject [("c", JArray [tampered_message])])) as Hp
    by reflexivity.
  assert (Js.prop (JObject [("c", JArray [tampered_message])]) "c"
          = Return (JArray [tampered_message])) as Hraws by reflexivity.
  assert (tampered_message ∈ [tampered_message]) as Hin
    by (apply list_elem_of_singleton; reflexivity).
  assert (Clean.passes tampered_message) as Hpass.
  { split; [reflexivity|]. split; [by eexists|]. split; by eexists. }
  assert (Js.prop tampered_message "replies"
          = Return (JArray ([] ++ JNumber 0
                              :: [JString "junk"; JObject [("id", JNumber 7)]])))
    as Hrep by reflexivity.
  assert (Forall Clean.well_formed_reply []) as Hpre by constructor.
  assert (Js.truthy (JNumber 0) = false) as Hfalsy by reflexivity.
  assert (JNumber 0 ≠ JNull) as Hnull by discriminate.
  destruct (proj2 (CleanFacts.clean_keeps_malformed_replies tampered
                     restored_tampered "c" [restored_junk] _ _ H Hl Hp Hraws)
              tampered_message [] (JNumber 0) _ Hin Hpass Hrep Hpre Hfalsy Hnull)
    as (Hnot & msg & Hm & _ & _ & _ & Hkept).
  split; [exact H|]. split; [exact Hl|]. split; [exact Hpass|].
  split; [exact Hfalsy|]. split; [exact Hnot|].
  exists msg. split; [exact Hm|exact Hkept].
Defined.

Lemma clean_outbox_unsent_witness :
  Clean.clean persisted = Return restored_state
  ∧ td_outbox restored_state !! "c" = Some [restored]
  ∧ restored ∈ [restored]
  ∧ status restored = unsent
  ∧ files (payload restored) = None.
Proof.
  assert (Clean.clean persisted = Return restored_state) as H by reflexivity.
  assert (td_outbox restored_state !! "c" = Some [restored]) as Hl by reflexivity.
  assert (restored ∈ [restored]) as Hin by (apply list_elem_of_singleton; reflexivity).
  split; [exact H|]. split; [exact Hl|]. split; [exact Hin|].
  destruct (proj1 (CleanFacts.clean_outbox_unsent persisted restored_state "c"
                     [restored] H Hl) restored Hin) as (Hs & Hf & _).
  split; [exact Hs|exact Hf].
Defined.

(** [clean] throws on a [null] where a message is expected: [typeof null]
    is ["object"], and reading [status] of it fails. *)
Example clean_null_message :
  Clean.clean (JObject [("outbox", JObject [("c", JArray [JNull])])])
  = Throw TypeError.
Proof. reflexivity. Qed.

(** [clean(default())] is [default()]. *)
Example clean_default :
  Clean.clean (JObject [("drafts", JObject []); ("outbox", JObject [])])
  = Return {| td_drafts := ∅; td_outbox := ∅ |}.
Proof. reflexivity. Qed.

End Examples.

(** ** Further worked examples *)

Module MoreExamples.

Import Fixtures.

Ltac by_decide :=
  match goal with
  | |- ?P => apply (@bool_decide_unpack P _); vm_compute; exact I
  end.

Lemma clearDraft_frame_witness :
  ("f1" ∈ default [] (files (getDraft "c" two_channels)))
  ∧ ("f3" ∉ default [] (files (getDraft "c" two_channels)))
  ∧ "d" ≠ "c"
  ∧ getFile "f1" two_channels = Some (previewed photo)
  ∧ getFile "f1" (clearDraft "c" two_channels) = None
  ∧ getFile "f3" (clearDraft "c" two_channels) = getFile "f3" two_channels
  ∧ drafts (clearDraft "c" two_channels) !! "d" = drafts two_channels !! "d"
  ∧ events (clearDraft "c" two_channels) = [].
Proof.
  assert ("f1" ∈ default [] (files (getDraft "c" two_channels))) as Hin by by_decide.
  assert ("f3" ∉ default [] (files (getDraft "c" two_channels))) as Hf by by_decide.
  assert ("d" ≠ "c") as Hne by discriminate.
  destruct (clearDraft_frame "c" two_channels)
    as (Hgone & Hcache & Hev & _ & Hother).
  split; [exact Hin|]. split; [exact Hf|]. split; [exact Hne|].
  split; [reflexivity|]. split; [exact (Hgone "f1" Hin)|].
  split; [exact (Hcache "f3" Hf)|]. split; [exact (Hother "d" Hne)|exact Hev].
Defined.

Lemma addReply_keeps_replies_sound_witness :
  let rs := default [] (replies (getDraft "c" replies_only)) in
  let rs' :=
    default [] (replies (getDraft "c"
                           (addReply config offline (message "m2") "alice"
                              replies_only))) in
  length rs ≤ MAX_REPLIES config
  ∧ NoDup (reply_ids rs)
  ∧ length rs' ≤ MAX_REPLIES config
  ∧ NoDup (reply_ids rs').
Proof.
  intros rs rs'.
  assert (length rs ≤ MAX_REPLIES config) as Hlen by (vm_compute; lia).
  assert (NoDup (reply_ids rs)) as Hnd by by_decide.
  pose proof (addReply_keeps_replies_sound config offline (message "m2") "alice"
                replies_only) as H.
  cbv zeta in H. destruct H as (Hlen' & Hnd' & _).
  split; [exact Hlen|]. split; [exact Hnd|].
  split; [exact (Hlen' Hlen)|exact (Hnd' Hnd)].
Defined.

Lemma removeReply_undoes_addReply_witness :
  let s2 := removeReply "c" "m2"
              (addReply config offline (message "m2") "alice" replies_only) in
  ("m2" ∉ reply_ids (default [] (replies (getDraft "c" replies_only))))
  ∧ default [] (replies (getDraft "c" s2))
    = default [] (replies (getDraft "c" replies_only)).
Proof.
  intros s2.
  assert ("m2" ∉ reply_ids (default [] (replies (getDraft "c" replies_only))))
    as Hnew by by_decide.
  pose proof (removeReply_undoes_addReply config offline (message "m2") "alice"
                replies_only) as H.
  cbv zeta in H. destruct H as (_ & _ & _ & Hback).
  split; [exact Hnew|exact (Hback Hnew)].
Defined.

Lemma toggleReplyMention_flips_witness :
  let once := toggleReplyMention "c" "m1" replies_only in
  let twice := toggleReplyMention "c" "m1" (snd once) in
  Forall (λ r, is_Some (mention r))
    (default [] (replies (getDraft "c" replies_only)))
  ∧ fst once = [false]
  ∧ fst twice = [true]
  ∧ default [] (replies (getDraft "c" (snd twice)))
    = default [] (replies (getDraft "c" replies_only)).
Proof.
  intros once twice.
  assert (Forall (λ r, is_Some (mention r))
            (default [] (replies (getDraft "c" replies_only)))) as Hall.
  { repeat constructor. by eexists. }
  pose proof (toggleReplyMention_flips "c" "m1" replies_only) as H.
  cbv zeta in H. destruct H as (Hfirst & _ & _ & _ & _ & _ & Hwrites & Hback).
  split; [exact Hall|]. split; [exact Hfirst|]. split; [exact Hwrites|].
  exact (Hback Hall).
Defined.

Lemma popFromDraft_takes_one_witness :
  let r := popFromDraft "c" replies_only in
  0 < length (default [] (replies (getDraft "c" replies_only)))
  ∧ fst r = true
  ∧ default [] (replies (getDraft "c" (snd r))) = []
  ∧ fst (popFromDraft "c" initial) = false
  ∧ snd (popFromDraft "c" initial) = initial.
Proof.
  intros r.
  assert (0 < length (default [] (replies (getDraft "c" replies_only)))) as Hpos
    by (vm_compute; lia).
  assert (fst (popFromDraft "c" initial) = false) as Hno by reflexivity.
  pose proof (popFromDraft_takes_one "c" replies_only) as H.
  cbv zeta in H. destruct H as (_ & _ & _ & Hreply & _).
  pose proof (popFromDraft_takes_one "c" initial) as H'.
  cbv zeta in H'. destruct H' as (_ & _ & Hsame & _).
  split; [exact Hpos|]. split; [reflexivity|].
  split; [exact (proj2 (Hreply Hpos))|]. split; [exact Hno|exact (Hsame Hno)].
Defined.

Lemma removeFile_releases_witness :
  let s' := removeFile "c" "f1" two_channels in
  "f3" ≠ "f1"
  ∧ getFile "f3" s' = getFile "f3" two_channels
  ∧ getFile "f1" s' = None
  ∧ events s' = [EvRevokeObjectURL "blob:a.png"].
Proof.
  intros s'.
  assert ("f3" ≠ "f1") as Hne by discriminate.
  pose proof (removeFile_releases "c" "f1" two_channels) as H.
  cbv zeta in H. destruct H as (Hgone & Hother & _ & _ & _ & _ & _ & Hev).
  split; [exact Hne|]. split; [exact (Hother "f3" Hne)|].
  split; [exact Hgone|exact Hev].
Defined.

Lemma addFile_appends_witness :
  let s' := addFile picker "c" photo composing in
  "f1" ≠ insecureUniqueId picker
  ∧ getFile "f1" s' = getFile "f1" composing
  ∧ default [] (files (getDraft "c" s')) = ["f1"; "f2"]
  ∧ getFile "f2" s' = Some (previewed photo).
Proof.
  intros s'.
  assert ("f1" ≠ insecureUniqueId picker) as Hne by discriminate.
  pose proof (addFile_appends picker "c" photo composing) as H.
  cbv zeta in H. destruct H as (Hfiles & _ & Hother & _).
  split; [exact Hne|]. split; [exact (Hother "f1" Hne)|].
  split; [exact Hfiles|reflexivity].
Defined.

Lemma removeFile_undoes_addFile_witness :
  let s' := removeFile "c" "f2" (addFile picker "c" photo composing) in
  getFile "f2" composing = None
  ∧ ("f2" ∉ default [] (files (getDraft "c" composing)))
  ∧ fileCache s' = fileCache composing
  ∧ default [] (files (getDraft "c" s')) = ["f1"].
Proof.
  intros s'.
  assert (getFile "f2" composing = None) as Hcache by reflexivity.
  assert ("f2" ∉ default [] (files (getDraft "c" composing))) as Hnew by by_decide.
  destruct (removeFile_undoes_addFile picker "c" photo composing Hcache Hnew)
    as (Hc & Hf & _).
  split; [exact Hcache|]. split; [exact Hnew|]. split; [exact Hc|exact Hf].
Defined.

Lemma sendDraft_sent_witness :
  let run := sendDraft config online "c" None previewing in
  let new := [EvRevokeObjectURL "blob:a.png";
              EvSendMessage "c" hi_data "key0" true;
              EvUpload "f1" photo accepted; EvUlid "key0"] in
  events (snd run) = new ++ events previewing
  ∧ Exists successful_send new
  ∧ fst run = Return tt
  ∧ getFile "f1" (snd run) = None
  ∧ outbox (snd run) !! "c" = Some [].
Proof.
  intros run new.
  assert (events (snd run) = new ++ events previewing) as Hev by reflexivity.
  assert (Exists successful_send new) as Hex.
  { right. left. exists "c", hi_data, "key0". reflexivity. }
  split; [exact Hev|]. split; [exact Hex|].
  pose proof (sendDraft_sent config online "c" None previewing
                (fst run) (snd run) new (surjective_pairing run) Hev Hex) as H.
  cbv zeta in H. destruct H as (Hr & _).
  split; [exact Hr|]. split; reflexivity.
Defined.

Lemma sendDraft_text_only_witness :
  let draft := payload_of config "c" None typing_hello in
  let run := sendDraft config online "c" None typing_hello in
  nothing_to_send draft = false
  ∧ default [] (files draft) = []
  ∧ fst run = Return tt
  ∧ events (snd run) = [EvSendMessage "c" hello_data "key0" true; EvUlid "key0"]
  ∧ outbox (snd run) !! "c" = Some [].
Proof.
  intros draft run.
  assert (nothing_to_send draft = false) as Hsome by reflexivity.
  assert (default [] (files draft) = []) as Hnone by reflexivity.
  pose proof (sendDraft_text_only config online "c" None typing_hello) as H.
  cbv zeta in H. destruct (H Hsome Hnone) as (Hr & Hev & _ & Hout).
  split; [exact Hsome|]. split; [exact Hnone|]. split; [exact Hr|].
  split; [exact Hev|exact Hout].
Defined.

Lemma sendDraft_uncached_file_witness :
  let run := sendDraft config online "c" None dangling in
  let new := [EvUlid "key0"] in
  events (snd run) = new ++ events dangling
  ∧ ("f1" ∈ default [] (files (payload_of config "c" None dangling)))
  ∧ getFile "f1" dangling = None
  ∧ fst run = Throw TypeError
  ∧ outbox (snd run) !! "c"
    = Some [{| idempotencyKey := "key0"; status := sending;
               payload := hi_with_photo |}].
Proof.
  intros run new.
  assert (events (snd run) = new ++ events dangling) as Hev by reflexivity.
  assert ("f1" ∈ default [] (files (payload_of config "c" None dangling))) as Hin
    by by_decide.
  assert (getFile "f1" dangling = None) as Hcache by reflexivity.
  pose proof (sendDraft_uncached_file config online "c" None dangling
                (fst run) (snd run) new "f1" (surjective_pairing run) Hev) as H.
  cbv zeta in H. destruct (H Hin Hcache) as (_ & _ & Hout).
  split; [exact Hev|]. split; [exact Hin|]. split; [exact Hcache|].
  split; [reflexivity|exact Hout].
Defined.

Lemma cancelSend_undoes_failed_send_witness :
  let run := sendDraft config offline "c" None composing in
  let new := [EvSendMessage "c" hi_data "key0" false;
              EvUpload "f1" photo accepted; EvUlid "key0"] in
  events (snd run) = new ++ events composing
  ∧ Exists failed_send new
  ∧ (∀ e, e ∈ getPendingMessages "c" composing →
          idempotencyKey e ≠ w_ulid offline (events composing))
  ∧ getPendingMessages "c" (cancelSend "c" "key0" (snd run))
    = getPendingMessages "c" composing.
Proof.
  intros run new.
  assert (events (snd run) = new ++ events composing) as Hev by reflexivity.
  assert (Exists failed_send new) as Hex.
  { left. exists "c", hi_data, "key0". reflexivity. }
  assert (∀ e, e ∈ getPendingMessages "c" composing →
               idempotencyKey e ≠ w_ulid offline (events composing)) as Hfresh.
  { intros e He. by apply elem_of_nil in He. }
  split; [exact Hev|]. split; [exact Hex|]. split; [exact Hfresh|].
  pose proof (cancelSend_undoes_failed_send config offline "c" None composing
                (fst run) (snd run) new (surjective_pairing run) Hev Hex Hfresh)
    as H.
  cbv zeta in H. exact (proj1 H).
Defined.

Lemma retrySend_unknown_key_witness :
  let failed_once := snd (sendDraft config offline "c" None composing) in
  let pending := [{| idempotencyKey := "key0"; status := failed;
                     payload := hi_with_photo |}] in
  outbox initial !! "c" = None
  ∧ retrySend config offline "c" "key0" initial = (Throw TypeError, initial)
  ∧ outbox failed_once !! "c" = Some pending
  ∧ Forall (λ e, idempotencyKey e ≠ "key7") pending
  ∧ retrySend config offline "c" "key7" failed_once
    = (Return tt, snd (sendDraft config offline "c" None failed_once))
  ∧ is_Some (outbox stuck !! "c")
  ∧ fst (sendDraft config no_uploads "c" (Some hi_with_photo)
           (cancelSend "c" "key0" stuck)) = Throw UploadError
  ∧ fst (retrySend config no_uploads "c" "key0" stuck) = Return tt.
Proof.
  intros failed_once pending.
  assert (is_Some (outbox stuck !! "c")) as Hlist by (by eexists).
  assert (outbox initial !! "c" = None) as Hnone by reflexivity.
  assert (outbox failed_once !! "c" = Some pending) as Hsome by reflexivity.
  assert (Forall (λ e, idempotencyKey e ≠ "key7") pending) as Hall.
  { repeat constructor. discriminate. }
  split; [exact Hnone|].
  split; [exact (proj1 (retrySend_unknown_key config offline "c" "key0" initial)
                   Hnone)|].
  split; [exact Hsome|]. split; [exact Hall|].
  split; [exact (proj1 (proj2 (retrySend_unknown_key config offline "c" "key7"
                                 failed_once)) pending Hsome Hall)|].
  split; [exact Hlist|]. split; [reflexivity|].
  exact (proj2 (proj2 (retrySend_unknown_key config no_uploads "c" "key0" stuck))
           Hlist).
Defined.

Lemma sendDraft_other_channels_witness :
  let s' := snd (sendDraft config online "c" None two_channels) in
  "d" ≠ "c"
  ∧ drafts s' !! "d" = Some yo_with_photo
  ∧ outbox s' !! "d" = None.
Proof.
  intros s'.
  assert ("d" ≠ "c") as Hne by discriminate.
  pose proof (sendDraft_other_channels config online "c" None two_channels "d" Hne)
    as H.
  cbv zeta in H. destruct H as (Hd & Ho & _).
  split; [exact Hne|]. split; [exact Hd|exact Ho].
Defined.

Lemma clean_drafts_kept_witness :
  Clean.clean saved = Return reloaded
  ∧ td_drafts reloaded !! "c" = Some kept
  ∧ ∃ messageDrafts,
      Js.prop saved "drafts" = Return messageDrafts
      ∧ Clean.draft_cleaned messageDrafts "c" kept.
Proof.
  assert (Clean.clean saved = Return reloaded) as H by reflexivity.
  assert (td_drafts reloaded !! "c" = Some kept) as Hl by reflexivity.
  split; [exact H|]. split; [exact Hl|].
  exact (proj1 (MoreCleanFacts.clean_drafts_kept saved reloaded H) "c" kept Hl).
Defined.

Lemma clean_outbox_channels_witness :
  let pendingMessages := JObject [("c", JString "oops")] in
  Clean.clean saved = Return reloaded
  ∧ Js.prop saved "outbox" = Return pendingMessages
  ∧ Js.typeof_object pendingMessages = true
  ∧ ("c" ∈ fst <$> Js.own_entries pendingMessages)
  ∧ is_Some (td_outbox reloaded !! "c").
Proof.
  intros pendingMessages.
  assert (Clean.clean saved = Return reloaded) as H by reflexivity.
  assert (Js.prop saved "outbox" = Return pendingMessages) as Hp by reflexivity.
  assert (Js.typeof_object pendingMessages = true) as Hobj by reflexivity.
  assert ("c" ∈ fst <$> Js.own_entries pendingMessages) as Hin by by_decide.
  split; [exact H|]. split; [exact Hp|]. split; [exact Hobj|]. split; [exact Hin|].
  exact (proj2 (proj1 (proj2 (MoreCleanFacts.clean_outbox_channels saved reloaded
                                 pendingMessages H Hp) Hobj) "c") Hin).
Defined.

End MoreExamples.
